(** * viz_slots: replaying and costing a relocation plan

    A shallow embedding of [viz_slots.py] and the properties of its cost
    evaluator ([move_cost]), its move executor ([apply_move]), its
    formatters ([format_state], [format_goal]), its drawing ([draw_grid]),
    its orchestrator ([visualize]) and its main block.  The planner
    ([run_prolog]) is an external process: it is a parameter of the
    development, and the properties of a run hold for every answer.

    Conventions of the embedding.
    - A Python [dict] is an insertion-ordered association list ([dict K V]):
      [draw_grid] reads [next(iter(slots.values()))], so the order of the
      entries is observable.  Reading a missing key raises [KeyError];
      assigning to a present key replaces the value in place, assigning to
      a missing key appends an entry.
    - Python [int] is [Z], [Optional[str]] is [option string] ([None] is
      the empty slot).  The interpreter's limit on the number of digits of
      a conversion between an integer and its text (4300 by default, set
      by [sys.set_int_max_str_digits]) is not modelled, neither for
      [str(n)] nor for [int(s)].
    - Python [str] is [string], the UTF-8 encoding of the text: splitting
      at a colon and comparing two texts give the same on the bytes as on
      the characters.  [int(s)] decodes the characters beyond ASCII, with
      the decimal digits of Unicode 14.0 (CPython 3.11).
    - An exception is a value of type [error]; code that can raise returns
      [result A = error + A], and code that also mutates an object is a
      function from the object to a result paired with the object as it is
      when the call returns or raises ([M S A]).
    - What [visualize] prints and saves is a list of [event]s, one
      constructor of [line] per [print] statement of the source. *)

From Stdlib Require Import ZArith Lia Ascii String.
From stdpp Require Import base decidable option list strings numbers pretty
  sorting.

Local Open Scope string_scope.
Local Open Scope Z_scope.
Local Open Scope list_scope.

(** ** Python dictionaries *)

Section dict.
Context {K V : Type} `{EqDecision K}.

Definition dict : Type := list (K * V).

(** [d.get(k)], with [None] for a missing key. *)
Fixpoint dict_get (d : dict) (k : K) : option V :=
  match d with
  | [] => None
  | (k', v) :: d' => if decide (k' = k) then Some v else dict_get d' k
  end.

(** [d[k] = v] *)
Fixpoint dict_set (d : dict) (k : K) (v : V) : dict :=
  match d with
  | [] => [(k, v)]
  | (k', v') :: d' =>
      if decide (k' = k) then (k', v) :: d' else (k', v') :: dict_set d' k v
  end.

(** [d.get(k, dflt)] *)
Definition dict_get_default (d : dict) (k : K) (dflt : V) : V :=
  default dflt (dict_get d k).

Definition dict_keys (d : dict) : list K := d.*1.
Definition dict_values (d : dict) : list V := d.*2.
End dict.

Arguments dict : clear implicits.

(** ** Exceptions *)

(** The keys that occur in a [KeyError] of this program. *)
Inductive pykey : Type :=
| KStr (s : string)
| KInt (z : Z).

Inductive error : Type :=
| KeyError (k : pykey)
  (* apply_move: "Expected {block} at {sl}:{sp}, found {slots[sl][sp]}" *)
| ValueError_expected (block sl : string) (sp : Z) (found : option string)
  (* apply_move: "Destination not empty {dl}:{dp}" *)
| ValueError_destination_not_empty (dl : string) (dp : Z)
  (* start_slots: "Unknown scenario: {sid}" *)
| ValueError_unknown_scenario (sid : string)
  (* int(s) on a string that is no integer literal *)
| ValueError_int (s : string)
  (* list.index(x) on a list without x *)
| ValueError_not_in_list (x : string)
  (* k.split(":")[1] on a key without a colon *)
| IndexError
  (* next(iter(...)) on an empty dictionary *)
| StopIteration
  (* run_prolog: the planner crashed or printed nothing or no JSON *)
| SolverFailure (diagnostic : string).

(** The text of the errors that the program raises itself. *)
Definition message (e : error) : option string :=
  match e with
  | ValueError_expected block sl sp found =>
      Some ("Expected " +:+ block +:+ " at " +:+ sl +:+ ":" +:+ pretty sp
              +:+ ", found " +:+ default "None" found)
  | ValueError_destination_not_empty dl dp =>
      Some ("Destination not empty " +:+ dl +:+ ":" +:+ pretty dp)
  | ValueError_unknown_scenario sid => Some ("Unknown scenario: " +:+ sid)
  | _ => None
  end.

Definition result (A : Type) : Type := error + A.

Definition ok {A} (x : A) : result A := inr x.
Definition raise {A} (e : error) : result A := inl e.

Definition rbind {A B} (r : result A) (k : A -> result B) : result B :=
  match r with
  | inl e => inl e
  | inr x => k x
  end.

Notation "'let?' x ':=' r 'in' k" := (rbind r (fun x => k))
  (at level 10, x pattern, r at level 100, k at level 200).

(** [d[k]]: a missing key raises [KeyError]. *)
Definition getitem {K V} `{EqDecision K} (inj : K -> pykey)
    (d : dict K V) (k : K) : result V :=
  match dict_get d k with
  | Some v => ok v
  | None => raise (KeyError (inj k))
  end.

(** ** Code that mutates an object of type [S] *)

Definition M (S A : Type) : Type := S -> result A * S.

Definition mret {S A} (x : A) : M S A := fun s => (inr x, s).
Definition mraise {S A} (e : error) : M S A := fun s => (inl e, s).
Definition mbind {S A B} (m : M S A) (k : A -> M S B) : M S B :=
  fun s =>
    match m s with
    | (inl e, s') => (inl e, s')
    | (inr x, s') => k x s'
    end.
Definition mlift {S A} (r : result A) : M S A := fun s => (r, s).

Notation "'let!' x ':=' m 'in' k" := (mbind m (fun x => k))
  (at level 10, x pattern, m at level 100, k at level 200).
Notation "m1 ';;!' m2" := (mbind m1 (fun _ => m2))
  (at level 100, m2 at level 200, right associativity).

(** ** The tables (lines 9-19) *)

Definition DIST : dict (string * string) Z :=
  [ (("a", "b"), 2); (("b", "a"), 2);
    (("a", "c"), 3); (("c", "a"), 3);
    (("b", "c"), 1); (("c", "b"), 1) ].

Definition SHELF_HEIGHT : dict Z Z := [ (1, 1); (2, 3); (3, 5) ].

Definition WEIGHT : dict string Z := [ ("a", 1); ("b", 2); ("c", 3) ].

(** ** Moves and states *)

(** A move as the planner sends it: [["move", sl, sp, dl, dp, block]].
    The positions are JSON integers, on which [int(sp)] is the identity. *)
Record Action : Type := mk_action {
  act_tag : string;
  act_sl : string;
  act_sp : Z;
  act_dl : string;
  act_dp : Z;
  act_block : string
}.

(** [Dict[str, Dict[int, Optional[str]]]]; the inner dictionaries are
    distinct objects, as [start_slots] builds them. *)
Definition slots_t : Type := dict string (dict Z (option string)).

(** ** move_cost (lines 100-110) *)

Record breakdown : Type := mk_breakdown {
  br_distance : Z;
  br_vertical : Z;
  br_weight : Z
}.

Definition move_cost (act : Action) : result (Z * breakdown) :=
  let '(mk_action _ sl sp dl dp block) := act in
  let d := dict_get_default DIST (sl, dl) 0 in
  let? hs := getitem KInt SHELF_HEIGHT sp in
  let? hd := getitem KInt SHELF_HEIGHT dp in
  let v := Z.abs (hs - hd) in
  let? w := getitem KStr WEIGHT block in
  ok (w * (d + v), mk_breakdown d v w).

(** ** apply_move (lines 113-125) *)

(** The value of the expression [slots[loc][pos]]. *)
Definition slots_lookup (slots : slots_t) (loc : string) (pos : Z)
    : result (option string) :=
  let? inner := getitem KStr slots loc in
  getitem KInt inner pos.

(** [slots[loc][pos]] *)
Definition slots_read (loc : string) (pos : Z) : M slots_t (option string) :=
  fun slots => (slots_lookup slots loc pos, slots).

(** [slots[loc][pos] = v] *)
Definition slots_write (loc : string) (pos : Z) (v : option string)
    : M slots_t unit :=
  fun slots =>
    match getitem KStr slots loc with
    | inl e => (inl e, slots)
    | inr inner => (inr tt, dict_set slots loc (dict_set inner pos v))
    end.

Definition apply_move_body (act : Action) : M slots_t unit :=
  let '(mk_action _ sl sp dl dp block) := act in
  let! cur := slots_read sl sp in
  if decide (cur ≠ Some block) then
    let! found := slots_read sl sp in
    mraise (ValueError_expected block sl sp found)
  else
    let! dst := slots_read dl dp in
    if decide (dst ≠ None) then
      mraise (ValueError_destination_not_empty dl dp)
    else
      slots_write sl sp None ;;!
      slots_write dl dp (Some block).

(** The outcome of the call and the dictionary as the call leaves it. *)
Definition apply_move (slots : slots_t) (act : Action)
    : result unit * slots_t :=
  apply_move_body act slots.

(** ** Sorting, formatting and parsing helpers *)

(** [sorted(l)]: a stable sort, as Python's is. *)
Fixpoint insert_sorted {A} (leb : A -> A -> bool) (x : A) (l : list A)
    : list A :=
  match l with
  | [] => [x]
  | y :: l' => if leb x y then x :: l else y :: insert_sorted leb x l'
  end.

Definition sorted {A} (leb : A -> A -> bool) (l : list A) : list A :=
  foldr (insert_sorted leb) [] l.

(** [enumerate(l)] *)
Definition enumerate {A} (l : list A) : list (nat * A) := imap pair l.

Fixpoint mapM_result {A B} (f : A -> result B) (l : list A)
    : result (list B) :=
  match l with
  | [] => ok []
  | x :: l' =>
      let? y := f x in
      let? ys := mapM_result f l' in
      ok (y :: ys)
  end.

(** [", ".join(parts)] *)
Fixpoint join (sep : string) (parts : list string) : string :=
  match parts with
  | [] => ""
  | [p] => p
  | p :: ps => p +:+ sep +:+ join sep ps
  end.

(** [s.split(":")] *)
Fixpoint split_colon (s : string) : list string :=
  match s with
  | EmptyString => [""]
  | String c s' =>
      if decide (c = ":"%char) then "" :: split_colon s'
      else match split_colon s' with
           | [] => [String c ""]
           | p :: ps => String c p :: ps
           end
  end.

Definition digit_of (c : ascii) : option Z :=
  let n := Z.of_N (N_of_ascii c) in
  if decide (48 <= n <= 57) then Some (n - 48) else None.

Fixpoint parse_digits (s : string) (acc : Z) : option Z :=
  match s with
  | EmptyString => Some acc
  | String c s' =>
      match digit_of c with
      | Some d => parse_digits s' (10 * acc + d)
      | None => None
      end
  end.

(** ** int(s) (line 87)

    [int] reads a text in two passes.  The first rewrites every character
    beyond ASCII: white space to a space and a decimal digit of any script
    to its ASCII digit; any other such character ends the text with a
    question mark.  The second reads an ASCII literal: white space, an
    optional sign, digits that single underscores may separate, white
    space.  A [str] is modelled by its UTF-8 encoding. *)

Definition byte (c : ascii) : Z := Z.of_N (N_of_ascii c).

Definition chr (n : Z) : ascii := ascii_of_N (Z.to_N n).

(** The six payload bits of a continuation byte of UTF-8. *)
Definition continuation (c : ascii) : option Z :=
  if decide (0x80 <= byte c < 0xC0) then Some (byte c - 0x80) else None.

(** The code point that two, three and four bytes encode. *)
Definition code2 (c0 c1 : ascii) : option Z :=
  if decide (0xC0 <= byte c0 < 0xE0) then
    b1 ← continuation c1;
    let cp := (byte c0 - 0xC0) * 0x40 + b1 in
    if decide (0x80 <= cp) then Some cp else None
  else None.

Definition code3 (c0 c1 c2 : ascii) : option Z :=
  if decide (0xE0 <= byte c0 < 0xF0) then
    b1 ← continuation c1;
    b2 ← continuation c2;
    let cp := ((byte c0 - 0xE0) * 0x40 + b1) * 0x40 + b2 in
    if decide (0x800 <= cp) then Some cp else None
  else None.

Definition code4 (c0 c1 c2 c3 : ascii) : option Z :=
  if decide (0xF0 <= byte c0 < 0xF8) then
    b1 ← continuation c1;
    b2 ← continuation c2;
    b3 ← continuation c3;
    let cp := (((byte c0 - 0xF0) * 0x40 + b1) * 0x40 + b2) * 0x40 + b3 in
    if decide (0x10000 <= cp <= 0x10FFFF) then Some cp else None
  else None.

(** [Py_UNICODE_ISSPACE] beyond ASCII. *)
Definition unicode_space (cp : Z) : bool :=
  bool_decide (cp ∈ [0x85; 0xA0; 0x1680; 0x2028; 0x2029; 0x202F; 0x205F;
                     0x3000])
  || bool_decide (0x2000 <= cp <= 0x200A).

(** The digit zero of every script with decimal digits (Unicode 14.0, the
    character database of CPython 3.11); the digits 1 to 9 of the script
    follow it. *)
Definition unicode_zeros : list Z :=
  [ 0x660; 0x6F0; 0x7C0; 0x966; 0x9E6; 0xA66; 0xAE6; 0xB66; 0xBE6; 0xC66;
    0xCE6; 0xD66; 0xDE6; 0xE50; 0xED0; 0xF20; 0x1040; 0x1090; 0x17E0;
    0x1810; 0x1946; 0x19D0; 0x1A80; 0x1A90; 0x1B50; 0x1BB0; 0x1C40; 0x1C50;
    0xA620; 0xA8D0; 0xA900; 0xA9D0; 0xA9F0; 0xAA50; 0xABF0; 0xFF10; 0x104A0;
    0x10D30; 0x11066; 0x110F0; 0x11136; 0x111D0; 0x112F0; 0x11450; 0x114D0;
    0x11650; 0x116C0; 0x11730; 0x118E0; 0x11950; 0x11C50; 0x11D50; 0x11DA0;
    0x16A60; 0x16AC0; 0x16B50; 0x1D7CE; 0x1D7D8; 0x1D7E2; 0x1D7EC; 0x1D7F6;
    0x1E140; 0x1E2F0; 0x1E950; 0x1FBF0 ].

(** [Py_UNICODE_TODECIMAL] *)
Definition unicode_decimal (cp : Z) : option Z :=
  (fun zero => cp - zero)
    <$> List.find (fun zero => bool_decide (zero <= cp < zero + 10))
                  unicode_zeros.

(** One character of the first pass, before the rest of the text. *)
Definition to_ascii_char (cp : Z) (rest : string) : string :=
  if decide (cp < 127) then String (chr cp) rest
  else if unicode_space cp then String " " rest
  else match unicode_decimal cp with
       | Some d => String (chr (48 + d)) rest
       | None => "?"
       end.

Fixpoint to_ascii (s : string) : string :=
  match s with
  | "" => ""
  | String c0 s1 =>
      if decide (byte c0 < 0x80) then to_ascii_char (byte c0) (to_ascii s1)
      else
        match s1 with
        | "" => "?"
        | String c1 s2 =>
            match code2 c0 c1 with
            | Some cp => to_ascii_char cp (to_ascii s2)
            | None =>
                match s2 with
                | "" => "?"
                | String c2 s3 =>
                    match code3 c0 c1 c2 with
                    | Some cp => to_ascii_char cp (to_ascii s3)
                    | None =>
                        match s3 with
                        | "" => "?"
                        | String c3 s4 =>
                            match code4 c0 c1 c2 c3 with
                            | Some cp => to_ascii_char cp (to_ascii s4)
                            | None => "?"
                            end
                        end
                    end
                end
            end
        end
  end.

Fixpoint is_ascii (s : string) : bool :=
  match s with
  | "" => true
  | String c s' => bool_decide (byte c < 0x80) && is_ascii s'
  end.

(** The first pass: an ASCII text is read as it is. *)
Definition decimal_and_space_to_ascii (s : string) : string :=
  if is_ascii s then s else to_ascii s.

(** [Py_ISSPACE] *)
Definition is_space (c : ascii) : bool :=
  bool_decide (9 <= byte c <= 13 \/ byte c = 32).

Fixpoint skip_spaces (s : string) : string :=
  match s with
  | String c s' => if is_space c then skip_spaces s' else s
  | "" => ""
  end.

(** The digits of a literal, from the value [acc] of those read so far:
    the value and the text after the last digit.  [underscore] tells that
    the character before was an underscore, which neither another
    underscore nor the end of the digits may follow. *)
Fixpoint scan_digits (s : string) (acc : Z) (underscore : bool)
    : option (Z * string) :=
  match s with
  | String c s' =>
      match digit_of c with
      | Some d => scan_digits s' (10 * acc + d) false
      | None =>
          if underscore then None
          else if decide (c = "_"%char) then scan_digits s' acc true
          else Some (acc, s)
      end
  | "" => if underscore then None else Some (acc, "")
  end.

(** The sign of a literal and what follows it. *)
Definition sign_and_body (text : string) : Z * string :=
  match text with
  | String c body =>
      if decide (c = "-"%char) then (-1, body)
      else if decide (c = "+"%char) then (1, body)
      else (1, text)
  | "" => (1, "")
  end.

(** [int(s)]: the digits of a literal start with a digit, and only white
    space may follow them. *)
Definition py_int (s : string) : result Z :=
  let text := skip_spaces (decimal_and_space_to_ascii s) in
  let '(sign, body) := sign_and_body text in
  match body with
  | String c _ =>
      match digit_of c, scan_digits body 0 false with
      | Some _, Some (n, rest) =>
          match skip_spaces rest with
          | "" => ok (sign * n)
          | _ => raise (ValueError_int s)
          end
      | _, _ => raise (ValueError_int s)
      end
  | "" => raise (ValueError_int s)
  end.

(** [f"{step:02d}"] for a step index. *)
Definition fmt_02d (n : nat) : string :=
  if decide (n < 10)%nat then "0" +:+ pretty n else pretty n.

(** [l.index(x)] *)
Fixpoint index_of (x : string) (l : list string) : option nat :=
  match l with
  | [] => None
  | y :: l' => if decide (y = x) then Some 0%nat else S <$> index_of x l'
  end.

Definition list_index (l : list string) (x : string) : result nat :=
  match index_of x l with
  | Some i => ok i
  | None => raise (ValueError_not_in_list x)
  end.

(** ** start_slots (lines 44-72) *)

Definition start_slots (sid : string) : result slots_t :=
  if decide (sid = "s1") then
    ok [ ("a", [ (1, Some "a"); (2, Some "b"); (3, None) ]);
         ("b", [ (1, Some "c"); (2, None); (3, None) ]);
         ("c", [ (1, None); (2, None); (3, None) ]) ]
  else if decide (sid = "s2") then
    ok [ ("a", [ (1, Some "c"); (2, Some "b"); (3, None) ]);
         ("b", [ (1, Some "a"); (2, None); (3, None) ]);
         ("c", [ (1, None); (2, None); (3, None) ]) ]
  else if decide (sid = "s3") then
    ok [ ("a", [ (1, Some "a"); (2, Some "b"); (3, Some "c") ]);
         ("b", [ (1, None); (2, None); (3, None) ]);
         ("c", [ (1, None); (2, None); (3, None) ]) ]
  else if decide (sid = "s4") then
    ok [ ("a", [ (1, Some "a"); (2, Some "b"); (3, Some "c") ]);
         ("b", [ (1, None); (2, None); (3, None) ]);
         ("c", [ (1, None); (2, None); (3, None) ]) ]
  else raise (ValueError_unknown_scenario sid).

(** ** format_state (lines 75-82) *)

Definition format_state (slots : slots_t) : string :=
  let parts :=
    loc ← sorted String.leb (dict_keys slots);
    let inner := default [] (dict_get slots loc) in
    pos ← sorted Z.leb (dict_keys inner);
    let val := default None (dict_get inner pos) in
    [loc +:+ ":" +:+ pretty pos +:+ "=" +:+ default "empty" val] in
  "  " +:+ join ", " parts.

(** ** format_goal (lines 85-89) *)

(** The sort key [(k.split(":")[0], int(k.split(":")[1]))]. *)
Definition goal_sort_key (k : string) : result (string * Z) :=
  match split_colon k with
  | loc :: pos :: _ => let? n := py_int pos in ok (loc, n)
  | _ => raise IndexError
  end.

Definition sort_key_leb {A} (x y : string * Z * A) : bool :=
  let '(l1, n1, _) := x in
  let '(l2, n2, _) := y in
  String.ltb l1 l2 || (String.eqb l1 l2 && Z.leb n1 n2).

(** The planner sends the goal as [{"a:1": "empty", "c:2": "b", ...}]. *)
Definition format_goal (goal_dict : dict string string) : result string :=
  let? keyed :=
    mapM_result (fun k => let? sk := goal_sort_key k in ok (sk, k))
                (dict_keys goal_dict) in
  let keys := (sorted sort_key_leb keyed).*2 in
  let parts :=
    (fun k => k +:+ "=" +:+ default "" (dict_get goal_dict k)) <$> keys in
  ok ("  " +:+ join ", " parts).

(** ** draw_grid (lines 128-181) *)

(** What [draw_grid] puts on the axes, in the order of the calls.  A
    position [xi], [yi] is the index of the cell; the drawing offsets
    (half a cell for a label, the rows below the grid) are fixed. *)
Inductive shape : Type :=
| Cell (xi yi : nat)                         (* the Rectangle of a slot *)
| CellText (xi yi : nat) (b : string)        (* the block in the slot *)
| LocLabel (xi : nat) (loc : string)
| PosLabel (yi : nat) (p : Z)                (* "pos {p}" *)
| DistLabel (i : nat) (d : option Z)         (* "dist={d}", "?" if absent *)
| DistTick (i : nat)
| Arrow (x1 x2 : nat)
| ArrowLabel (x1 x2 : nat) (sl : string) (sp : Z) (dl : string) (dp : Z)
             (block : string).

(** The figure saved as [out_dir/step_NN.png]. *)
Record frame : Type := mk_frame {
  fr_out_dir : string;
  fr_file : string;
  fr_step : nat;
  fr_title : string;          (* the axes title is "{title} — step {step}" *)
  fr_shapes : list shape;
  fr_ncols : nat;             (* len(locs), for the x limits *)
  fr_nrows : nat              (* len(pos_ids), for the y limits *)
}.

Definition draw_cell (slots : slots_t) (xi : nat) (loc : string)
    (yp : nat * Z) : result (list shape) :=
  let '(yi, p) := yp in
  let? b := slots_lookup slots loc p in
  ok (Cell xi yi :: match b with
                    | Some x => [CellText xi yi x]
                    | None => []
                    end).

Definition draw_column (slots : slots_t) (pos_ids : list Z)
    (xl : nat * string) : result (list shape) :=
  let '(xi, loc) := xl in
  let? cells := mapM_result (draw_cell slots xi loc) (enumerate pos_ids) in
  ok (concat cells ++ [LocLabel xi loc]).

Definition draw_arrow (locs : list string) (current_move : option Action)
    : result (list shape) :=
  match current_move with
  | None => ok []
  | Some (mk_action _ sl sp dl dp block) =>
      let? x1 := list_index locs sl in
      let? x2 := list_index locs dl in
      ok [Arrow x1 x2; ArrowLabel x1 x2 sl sp dl dp block]
  end.

Definition render (slots : slots_t) (step : nat) (title out_dir : string)
    (current_move : option Action) : result frame :=
  let locs := sorted String.leb (dict_keys slots) in
  let? first :=
    match dict_values slots with
    | [] => raise StopIteration
    | inner :: _ => ok inner
    end in
  let pos_ids := sorted Z.leb (dict_keys first) in
  let? columns := mapM_result (draw_column slots pos_ids) (enumerate locs) in
  let pos_labels := (fun '(yi, p) => PosLabel yi p) <$> enumerate pos_ids in
  let dists :=
    '(i, (l1, l2)) ← enumerate (zip locs (tail locs));
    [DistLabel i (dict_get DIST (l1, l2)); DistTick i] in
  let? arrow := draw_arrow locs current_move in
  ok {| fr_out_dir := out_dir;
        fr_file := "step_" +:+ fmt_02d step +:+ ".png";
        fr_step := step;
        fr_title := title;
        fr_shapes := concat columns ++ pos_labels ++ dists ++ arrow;
        fr_ncols := length locs;
        fr_nrows := length pos_ids |}.

(** ** The solver's answer (lines 22-41, 191-204) *)

(** The JSON object that [run_prolog] returns, with [None] for a field
    that the object does not have. *)
Record solver_result : Type := mk_solver_result {
  res_ok : option bool;
  res_plan : option (list Action);
  res_cost : option Z;
  res_budget : option Z;
  res_goal : option (dict string string)
}.

(** [res[name]] *)
Definition field {A} (name : string) (f : option A) : result A :=
  match f with
  | Some x => ok x
  | None => raise (KeyError (KStr name))
  end.

(** ** What a run prints and saves *)

Inductive line : Type :=
| L_scenario (sid : string)            (* "\n=== Scenario {sid} ===" *)
| L_block_weights                      (* "Block weights:" *)
| L_weight (b : string) (w : Z)        (* "  {b}: {w}" *)
| L_goal_state                         (* "Goal state:" *)
| L_formatted (s : string)             (* format_goal(..), format_state(..) *)
| L_no_plan_found (res : solver_result)  (* "No plan found:", res *)
| L_budget (b : Z)                     (* "Budget: {res['budget']}" *)
| L_plan_steps (n : nat)               (* "Plan steps: {len(plan)}" *)
| L_total_cost_prolog (c : Z)          (* "Total cost (Prolog): {..}" *)
| L_initial_state                      (* "\nInitial state:" *)
| L_step (i : nat) (act : Action)      (* "\nStep {i}: {act}" *)
| L_step_cost (br : breakdown) (c : Z) (* "  step_cost = weight(..) * .." *)
| L_state                              (* "  state:" *)
| L_total_cost_python (c : Z)          (* "\nTotal cost (Python recompute): .." *)
| L_images_saved (out_dir : string).   (* "Images saved in: {out_dir}/" *)

Inductive event : Type :=
| Printed (l : line)
| Saved (f : frame).

Definition IO (A : Type) : Type := M (list event) A.

Definition emit (e : event) : IO unit := fun out => (inr tt, out ++ [e]).
Definition print (l : line) : IO unit := emit (Printed l).

Fixpoint for_each {A} (f : A -> IO unit) (l : list A) : IO unit :=
  match l with
  | [] => mret tt
  | x :: l' => f x ;;! for_each f l'
  end.

(** ** print_weights (lines 92-97) *)

Definition print_weights : IO unit :=
  let items := sorted (fun x y : string * Z => String.leb x.1 y.1) WEIGHT in
  print L_block_weights ;;!
  for_each (fun '(b, w) => print (L_weight b w)) items.

Definition draw_grid (slots : slots_t) (step : nat) (title out_dir : string)
    (current_move : option Action) : IO unit :=
  let! fr := mlift (render slots step title out_dir current_move) in
  emit (Saved fr).

(** ** visualize (lines 184-235) *)

Section visualize.
(** The planner is a process outside this program: [run_prolog] either
    raises or returns the parsed answer. *)
Variable run_prolog : string -> string -> option Z -> result solver_result.

(** The loop of lines 217-232, from step [i] on. *)
Fixpoint replay (title out_dir : string) (i : nat) (plan : list Action)
    (slots : slots_t) (running_cost : Z) : IO (slots_t * Z) :=
  match plan with
  | [] => mret (slots, running_cost)
  | act :: plan' =>
      let! (c, br) := mlift (move_cost act) in
      let running_cost := running_cost + c in
      print (L_step i act) ;;!
      print (L_step_cost br c) ;;!
      let! slots :=
        (fun out => match apply_move slots act with
                    | (inl e, _) => (inl e, out)
                    | (inr _, slots') => (inr slots', out)
                    end) in
      print L_state ;;!
      print (L_formatted (format_state slots)) ;;!
      draw_grid slots i title out_dir (Some act) ;;!
      replay title out_dir (S i) plan' slots running_cost
  end.

Definition visualize (pl_file sid : string) (budget : option Z) : IO unit :=
  let! res := mlift (run_prolog pl_file sid budget) in
  print (L_scenario sid) ;;!
  print_weights ;;!
  let goal_dict := default [] (res_goal res) in
  (if decide (goal_dict ≠ []) then
     print L_goal_state ;;!
     let! text := mlift (format_goal goal_dict) in
     print (L_formatted text)
   else mret tt) ;;!
  if negb (default false (res_ok res)) then
    print (L_no_plan_found res)
  else
    let! plan := mlift (field "plan" (res_plan res)) in
    let! total_cost_from_prolog := mlift (field "cost" (res_cost res)) in
    let! b := mlift (field "budget" (res_budget res)) in
    print (L_budget b) ;;!
    print (L_plan_steps (length plan)) ;;!
    print (L_total_cost_prolog total_cost_from_prolog) ;;!
    let! slots := mlift (start_slots sid) in
    print L_initial_state ;;!
    print (L_formatted (format_state slots)) ;;!
    let title :=
      sid +:+ " (cost=" +:+ pretty total_cost_from_prolog
          +:+ ", budget=" +:+ pretty b +:+ ")" in
    let out_dir := "viz_" +:+ sid in
    draw_grid slots 0 title out_dir None ;;!
    let! (_, running_cost) := replay title out_dir 1 plan slots 0 in
    print (L_total_cost_python running_cost) ;;!
    print (L_images_saved out_dir).

(** A run from an empty console and an empty output directory. *)
Definition run_visualize (pl_file sid : string) (budget : option Z)
    : result unit * list event :=
  visualize pl_file sid budget [].
End visualize.

(** ** Notions used to state the properties *)

(** The dictionary after [slots[loc][pos] = v], when [slots[loc]] exists;
    otherwise the assignment raises and the dictionary is as before. *)
Definition slots_update (slots : slots_t) (loc : string) (pos : Z)
    (v : option string) : slots_t :=
  match dict_get slots loc with
  | Some inner => dict_set slots loc (dict_set inner pos v)
  | None => slots
  end.

(** The state after the two assignments of lines 124 and 125. *)
Definition moved (slots : slots_t) (act : Action) : slots_t :=
  slots_update (slots_update slots (act_sl act) (act_sp act) None)
               (act_dl act) (act_dp act) (Some (act_block act)).

(** The items that a cell holds: none or one. *)
Definition cell_items (v : option string) : list string := option_list v.

(** The items of a state, cell by cell; as a multiset, up to [≡ₚ]. *)
Definition items (slots : slots_t) : list string :=
  inner ← dict_values slots; v ← dict_values inner; cell_items v.

(** A move is valid in a state when its source slot holds its item and
    its destination slot is empty. *)
Definition valid_move (slots : slots_t) (act : Action) : Prop :=
  slots_lookup slots (act_sl act) (act_sp act) = inr (Some (act_block act))
  /\ slots_lookup slots (act_dl act) (act_dp act) = inr None.

(** The move with the roles of source and destination swapped. *)
Definition reverse_move (act : Action) : Action :=
  {| act_tag := act_tag act;
     act_sl := act_dl act; act_sp := act_dp act;
     act_dl := act_sl act; act_dp := act_sp act;
     act_block := act_block act |}.

(** Lines 218, 219 and 227 of the loop alone: the cost and the move of
    every step, without the printing and the drawing.  A plan passes
    every step when this returns. *)
Fixpoint run_plan (slots : slots_t) (plan : list Action)
    : result (slots_t * Z) :=
  match plan with
  | [] => ok (slots, 0)
  | act :: plan' =>
      let? (c, _) := move_cost act in
      match apply_move slots act with
      | (inl e, _) => raise e
      | (inr _, slots') =>
          let? (final, total) := run_plan slots' plan' in
          ok (final, c + total)
      end
  end.

(** The frames of a run, in the order in which they were saved. *)
Definition frames (out : list event) : list frame :=
  omap (fun e => match e with Saved f => Some f | Printed _ => None end) out.

(** The lines of a run, in the order in which they were printed. *)
Definition printed (out : list event) : list line :=
  omap (fun e => match e with Printed l => Some l | Saved _ => None end) out.

(** What a run prints once its last frame is saved. *)
Definition final_summary (out : list event) : list line :=
  foldl (fun acc e => match e with
                      | Saved _ => []
                      | Printed l => acc ++ [l]
                      end) [] out.

(** [m] ends with [r], having added [evs] to what was printed and saved
    before. *)
Definition runs {A} (m : IO A) (r : result A) (evs : list event) : Prop :=
  forall out, m out = (r, out ++ evs).

(** The grid of every scenario: locations a, b, c with positions 1, 2, 3. *)
Definition grid (slots : slots_t) : Prop :=
  dict_keys slots = ["a"; "b"; "c"]
  /\ forall loc, loc ∈ dict_keys slots ->
       dict_keys <$> dict_get slots loc = Some [1; 2; 3].

(** A planner that answers every request with [res]. *)
Definition canned_planner (res : solver_result)
    : string -> string -> option Z -> result solver_result :=
  fun _ _ _ => inr res.

(** The goal of an answer can be printed: every key reads "loc:n". *)
Definition goal_printable (res : solver_result) : Prop :=
  Forall (fun k => exists sk, goal_sort_key k = inr sk)
         (dict_keys (default [] (res_goal res))).

(** ** main (lines 238-240) *)

Definition PROLOG_FILE : string := "planner_astar_slots.pl".

Section main.
Variable run_prolog : string -> string -> option Z -> result solver_result.

Definition main : IO unit :=
  for_each (fun sid => visualize run_prolog PROLOG_FILE sid None)
           ["s1"; "s2"; "s3"; "s4"].
End main.

(** ** Notions used to state further properties *)

(** A string without a colon: [s.split(":")] is [[s]]. *)
Definition no_colon (s : string) : Prop := split_colon s = [s].

(** The order in which [format_goal] prints two keys: by location, then
    by the number after the colon. *)
Definition goal_key_le (k1 k2 : string) : Prop :=
  exists l1 n1 l2 n2,
    goal_sort_key k1 = inr (l1, n1) /\ goal_sort_key k2 = inr (l2, n2)
    /\ (String.ltb l1 l2 = true \/ (l1 = l2 /\ n1 <= n2)).

(** A list stands for a dictionary when no key occurs twice in it. *)
Definition is_dict {K V} (d : dict K V) : Prop := NoDup (dict_keys d).

(** A state whose dictionaries, outer and inner, are dictionaries. *)
Definition is_state (slots : slots_t) : Prop :=
  is_dict slots /\ Forall is_dict (dict_values slots).

(** The file that a frame is saved as. *)
Definition frame_path (fr : frame) : string * string :=
  (fr_out_dir fr, fr_file fr).

(** The step costs that a run prints, in the order of the steps. *)
Definition step_costs (out : list event) : list Z :=
  omap (fun e => match e with
                 | Printed (L_step_cost _ c) => Some c
                 | _ => None
                 end) out.

(** The totals that a run prints as recomputed. *)
Definition printed_totals (out : list event) : list Z :=
  omap (fun e => match e with
                 | Printed (L_total_cost_python c) => Some c
                 | _ => None
                 end) out.

(** The block labels of a frame, each with the cell it is drawn in. *)
Definition cell_texts (fr : frame) : list (nat * nat * string) :=
  omap (fun sh => match sh with
                  | CellText xi yi b => Some (xi, yi, b)
                  | _ => None
                  end) (fr_shapes fr).

(** The cells of a frame. *)
Definition cells (fr : frame) : list (nat * nat) :=
  omap (fun sh => match sh with
                  | Cell xi yi => Some (xi, yi)
                  | _ => None
                  end) (fr_shapes fr).

(** The arrows of a frame. *)
Definition arrows (fr : frame) : list (nat * nat) :=
  omap (fun sh => match sh with
                  | Arrow x1 x2 => Some (x1, x2)
                  | _ => None
                  end) (fr_shapes fr).

(** The occupied slots of a state on the grid of a scenario, column by
    column from location a and upwards from position 1, each with the
    indexes of its column and its row. *)
Definition occupied_cells (slots : slots_t) : list (nat * nat * string) :=
  '(xi, loc) ← enumerate ["a"; "b"; "c"];
  '(yi, pos) ← enumerate [1; 2; 3];
  match slots_lookup slots loc pos with
  | inr (Some b) => [(xi, yi, b)]
  | _ => []
  end.

(** What [draw_grid] draws for one slot: its cell and, when the slot is
    occupied, the label of the block. *)
Definition cell_shapes (xi yi : nat) (v : option string) : list shape :=
  Cell xi yi :: match v with
                | Some b => [CellText xi yi b]
                | None => []
                end.

(** ** The course of a run, step by step *)

(** The first lines of every run. *)
Definition visualize_head (sid : string) : list event :=
  [ Printed (L_scenario sid); Printed L_block_weights;
    Printed (L_weight "a" 1); Printed (L_weight "b" 2);
    Printed (L_weight "c" 3) ].

(** The lines of a run about the goal of the answer. *)
Definition goal_lines (res : solver_result) : list event :=
  let goal_dict := default [] (res_goal res) in
  if decide (goal_dict ≠ []) then
    Printed L_goal_state ::
    match format_goal goal_dict with
    | inr text => [Printed (L_formatted text)]
    | inl _ => []
    end
  else [].

(** The title of the frames of a run. *)
Definition frame_title (sid : string) (c b : Z) : string :=
  sid +:+ " (cost=" +:+ pretty c +:+ ", budget=" +:+ pretty b +:+ ")".

(** How the loop of lines 217-232 runs from step [i] on: how it ends and
    what it prints and saves. *)
Inductive replay_outcome (title out_dir : string)
  : nat -> list Action -> slots_t -> Z ->
    result (slots_t * Z) -> list event -> Prop :=
| Replay_done i slots rc :
    replay_outcome title out_dir i [] slots rc (inr (slots, rc)) []
| Replay_cost_raises i act plan slots rc e :
    move_cost act = inl e ->
    replay_outcome title out_dir i (act :: plan) slots rc (inl e) []
| Replay_move_raises i act plan slots rc c br e slots' :
    move_cost act = inr (c, br) ->
    apply_move slots act = (inl e, slots') ->
    replay_outcome title out_dir i (act :: plan) slots rc (inl e)
      [ Printed (L_step i act); Printed (L_step_cost br c) ]
| Replay_draw_raises i act plan slots rc c br slots' e :
    move_cost act = inr (c, br) ->
    apply_move slots act = (inr tt, slots') ->
    render slots' i title out_dir (Some act) = inl e ->
    replay_outcome title out_dir i (act :: plan) slots rc (inl e)
      [ Printed (L_step i act); Printed (L_step_cost br c);
        Printed L_state; Printed (L_formatted (format_state slots')) ]
| Replay_step i act plan slots rc c br slots' fr r evs :
    move_cost act = inr (c, br) ->
    apply_move slots act = (inr tt, slots') ->
    render slots' i title out_dir (Some act) = inr fr ->
    replay_outcome title out_dir (S i) plan slots' (rc + c) r evs ->
    replay_outcome title out_dir i (act :: plan) slots rc r
      ([ Printed (L_step i act); Printed (L_step_cost br c);
         Printed L_state; Printed (L_formatted (format_state slots'));
         Saved fr ] ++ evs).

(** How a run of [visualize] for scenario [sid] goes on the answer of the
    planner: how it ends and what it prints and saves. *)
Inductive visualize_outcome (sid : string)
  : result solver_result -> result unit -> list event -> Prop :=
| Run_planner_raises e :
    visualize_outcome sid (inl e) (inl e) []
| Run_goal_raises res e :
    default [] (res_goal res) ≠ [] ->
    format_goal (default [] (res_goal res)) = inl e ->
    visualize_outcome sid (inr res) (inl e)
      (visualize_head sid ++ goal_lines res)
| Run_no_plan res :
    goal_printable res ->
    default false (res_ok res) = false ->
    visualize_outcome sid (inr res) (inr tt)
      (visualize_head sid ++ goal_lines res
         ++ [Printed (L_no_plan_found res)])
| Run_field_missing res name :
    goal_printable res ->
    default false (res_ok res) = true ->
    (res_plan res = None /\ name = "plan"
     \/ is_Some (res_plan res) /\ res_cost res = None /\ name = "cost"
     \/ is_Some (res_plan res) /\ is_Some (res_cost res)
        /\ res_budget res = None /\ name = "budget") ->
    visualize_outcome sid (inr res) (inl (KeyError (KStr name)))
      (visualize_head sid ++ goal_lines res)
| Run_unknown_scenario res plan c b e :
    goal_printable res ->
    default false (res_ok res) = true ->
    res_plan res = Some plan -> res_cost res = Some c ->
    res_budget res = Some b ->
    start_slots sid = inl e ->
    visualize_outcome sid (inr res) (inl e)
      (visualize_head sid ++ goal_lines res
         ++ [ Printed (L_budget b); Printed (L_plan_steps (length plan));
              Printed (L_total_cost_prolog c) ])
| Run_replay_raises res plan c b slots fr0 e evs :
    goal_printable res ->
    default false (res_ok res) = true ->
    res_plan res = Some plan -> res_cost res = Some c ->
    res_budget res = Some b ->
    start_slots sid = inr slots ->
    render slots 0 (frame_title sid c b) ("viz_" +:+ sid) None = inr fr0 ->
    replay_outcome (frame_title sid c b) ("viz_" +:+ sid) 1 plan slots 0
                   (inl e) evs ->
    visualize_outcome sid (inr res) (inl e)
      (visualize_head sid ++ goal_lines res
         ++ [ Printed (L_budget b); Printed (L_plan_steps (length plan));
              Printed (L_total_cost_prolog c); Printed L_initial_state;
              Printed (L_formatted (format_state slots)); Saved fr0 ]
         ++ evs)
| Run_replayed res plan c b slots fr0 final total evs :
    goal_printable res ->
    default false (res_ok res) = true ->
    res_plan res = Some plan -> res_cost res = Some c ->
    res_budget res = Some b ->
    start_slots sid = inr slots ->
    render slots 0 (frame_title sid c b) ("viz_" +:+ sid) None = inr fr0 ->
    replay_outcome (frame_title sid c b) ("viz_" +:+ sid) 1 plan slots 0
                   (inr (final, total)) evs ->
    visualize_outcome sid (inr res) (inr tt)
      (visualize_head sid ++ goal_lines res
         ++ [ Printed (L_budget b); Printed (L_plan_steps (length plan));
              Printed (L_total_cost_prolog c); Printed L_initial_state;
              Printed (L_formatted (format_state slots)); Saved fr0 ]
         ++ evs
         ++ [ Printed (L_total_cost_python total);
              Printed (L_images_saved ("viz_" +:+ sid)) ]).

(** A frame of the run of a scenario: its directory, its title and its
    file, named after its step. *)
Definition frame_of (out_dir title : string) (fr : frame) : Prop :=
  fr_out_dir fr = out_dir /\ fr_title fr = title
  /\ fr_file fr = "step_" +:+ fmt_02d (fr_step fr) +:+ ".png".

(** The file of the frame of a step in a directory. *)
Definition step_path (out_dir : string) (step : nat) : string * string :=
  (out_dir, "step_" +:+ fmt_02d step +:+ ".png").

(** The moves that a run prints, each with its number. *)
Definition step_lines (out : list event) : list (nat * Action) :=
  omap (fun e => match e with
                 | Printed (L_step i act) => Some (i, act)
                 | _ => None
                 end) out.

(** The errors that a run can end with once the planner has answered:
    those of the goal, of a missing field, of an unknown scenario and of
    a step of the plan. *)
Definition run_error (e : error) : Prop :=
  match e with
  | KeyError _ | ValueError_expected _ _ _ _
  | ValueError_destination_not_empty _ _ | ValueError_unknown_scenario _
  | ValueError_int _ | IndexError => True
  | ValueError_not_in_list _ | StopIteration | SolverFailure _ => False
  end.

(** Runs one after the other, up to the first that raises. *)
Fixpoint sequence_runs (rs : list (result unit * list event))
    : result unit * list event :=
  match rs with
  | [] => (inr tt, [])
  | (inl e, out) :: _ => (inl e, out)
  | (inr _, out) :: rs' =>
      let '(r, out') := sequence_runs rs' in (r, out ++ out')
  end.

(** * Properties *)

#[local] Arguments move_cost : simpl never.
#[local] Arguments apply_move : simpl never.
#[local] Arguments slots_lookup : simpl never.
#[local] Arguments slots_update : simpl never.

(** Reduce the field accesses of a move that has been taken apart. *)
Ltac act_fields :=
  cbn [act_tag act_sl act_sp act_dl act_dp act_block] in *.

(** ** Sample evaluations *)

Example start_slots_s1 :
  start_slots "s1"
  = inr [ ("a", [ (1, Some "a"); (2, Some "b"); (3, None) ]);
          ("b", [ (1, Some "c"); (2, None); (3, None) ]);
          ("c", [ (1, None); (2, None); (3, None) ]) ].
Proof. reflexivity. Qed.

Example start_slots_unknown :
  start_slots "s5" = inl (ValueError_unknown_scenario "s5").
Proof. reflexivity. Qed.

Example format_state_s3 :
  match start_slots "s3" with
  | inr slots => format_state slots
  | inl _ => ""
  end
  = "  a:1=a, a:2=b, a:3=c, b:1=empty, b:2=empty, b:3=empty, "
    +:+ "c:1=empty, c:2=empty, c:3=empty".
Proof. reflexivity. Qed.

Example format_goal_sorted :
  format_goal [ ("c:2", "b"); ("a:10", "c"); ("a:2", "empty") ]
  = inr "  a:2=empty, a:10=c, c:2=b".
Proof. reflexivity. Qed.

Example format_goal_no_colon :
  format_goal [ ("c:2", "b"); ("a", "empty") ] = inl IndexError.
Proof. reflexivity. Qed.

Example py_int_literals :
  py_int "12" = inr 12 ∧ py_int "-3" = inr (-3) ∧ py_int "+3" = inr 3
  ∧ py_int "007" = inr 7 ∧ py_int " 2" = inr 2 ∧ py_int "2 " = inr 2
  ∧ py_int "1_0" = inr 10 ∧ py_int "１２" = inr 12 ∧ py_int "٣" = inr 3
  ∧ py_int "" = inl (ValueError_int "")
  ∧ py_int "x" = inl (ValueError_int "x")
  ∧ py_int "- 1" = inl (ValueError_int "- 1")
  ∧ py_int "1__0" = inl (ValueError_int "1__0")
  ∧ py_int "_1" = inl (ValueError_int "_1")
  ∧ py_int "1_" = inl (ValueError_int "1_")
  ∧ py_int "1 2" = inl (ValueError_int "1 2")
  ∧ py_int "1.0" = inl (ValueError_int "1.0").
Proof. by repeat split. Qed.

Example format_goal_literals :
  format_goal [ ("a:1_0", "x"); ("a: 2", "y") ] = inr "  a: 2=y, a:1_0=x".
Proof. reflexivity. Qed.

Example move_cost_heaviest :
  move_cost (mk_action "move" "a" 3 "c" 1 "c")
  = inr (21, mk_breakdown 3 4 3).
Proof. reflexivity. Qed.

Example frame_file_names :
  fmt_02d 0 = "00" ∧ fmt_02d 7 = "07" ∧ fmt_02d 12 = "12".
Proof. by repeat split. Qed.

(** ** Dictionaries *)

Section dict_facts.
Context {K V : Type} `{EqDecision K}.
Implicit Types (d : dict K V) (k : K) (v : V).

Lemma dict_get_set_eq d k v : dict_get (dict_set d k v) k = Some v.
Proof.
  induction d as [|[k' v'] d IH]; simpl.
  - by rewrite decide_True.
  - destruct (decide (k' = k)) as [->|Hne]; simpl.
    + by rewrite decide_True.
    + by rewrite decide_False.
Qed.

Lemma dict_get_set_ne d k k' v :
  k ≠ k' → dict_get (dict_set d k v) k' = dict_get d k'.
Proof.
  intros Hne. induction d as [|[k0 v0] d IH]; simpl.
  - by rewrite decide_False.
  - destruct (decide (k0 = k)) as [->|Hk]; simpl.
    + by rewrite !decide_False.
    + by rewrite IH.
Qed.

Lemma dict_set_set d k v v' :
  dict_set (dict_set d k v) k v' = dict_set d k v'.
Proof.
  induction d as [|[k0 v0] d IH]; simpl.
  - by rewrite decide_True.
  - destruct (decide (k0 = k)) as [->|Hk]; simpl.
    + by rewrite decide_True.
    + by rewrite decide_False, IH.
Qed.

Lemma dict_set_id d k v : dict_get d k = Some v → dict_set d k v = d.
Proof.
  induction d as [|[k0 v0] d IH]; simpl; [done|].
  destruct (decide (k0 = k)) as [->|Hk].
  - by intros [= ->].
  - intros Hget. by rewrite IH.
Qed.

(** Assigning to a key that is there keeps the keys and their order. *)
Lemma dict_keys_set d k v :
  is_Some (dict_get d k) → dict_keys (dict_set d k v) = dict_keys d.
Proof.
  unfold dict_keys. induction d as [|[k0 v0] d IH]; simpl.
  - by intros [? ?].
  - destruct (decide (k0 = k)) as [->|Hk]; simpl; [done|].
    intros Hsome. f_equal. by apply IH.
Qed.

(** The values of a dictionary around one of its entries. *)
Lemma dict_values_set d k v0 v (f : V → list string) :
  dict_get d k = Some v0 →
  ∃ rest, dict_values d ≫= f ≡ₚ f v0 ++ rest
          ∧ dict_values (dict_set d k v) ≫= f ≡ₚ f v ++ rest.
Proof.
  unfold dict_values. induction d as [|[k0 w] d IH]; simpl; [done|].
  destruct (decide (k0 = k)) as [->|Hk].
  - intros [= ->]. by exists (d.*2 ≫= f).
  - intros Hget. destruct (IH Hget) as (rest & H1 & H2).
    exists (f w ++ rest). simpl. split.
    + rewrite H1. by rewrite !(assoc app), (comm app (f w)).
    + rewrite H2. by rewrite !(assoc app), (comm app (f w)).
Qed.
End dict_facts.

(** ** Reading and writing a slot *)

Lemma slots_lookup_inr slots loc pos v :
  slots_lookup slots loc pos = inr v ↔
  ∃ inner, dict_get slots loc = Some inner ∧ dict_get inner pos = Some v.
Proof.
  unfold slots_lookup, getitem. split.
  - destruct (dict_get slots loc) as [inner|]; simpl; [|done].
    destruct (dict_get inner pos) eqn:Hp; simpl; [|done].
    intros [= ->]. eauto.
  - intros (inner & -> & Hp). simpl. by rewrite Hp.
Qed.

Lemma slots_write_run slots loc pos v :
  slots_write loc pos v slots =
    match dict_get slots loc with
    | Some _ => (inr tt, slots_update slots loc pos v)
    | None => (inl (KeyError (KStr loc)), slots)
    end.
Proof.
  unfold slots_write, slots_update, getitem.
  by destruct (dict_get slots loc).
Qed.

Lemma slots_lookup_update_eq slots loc pos v :
  is_Some (dict_get slots loc) →
  slots_lookup (slots_update slots loc pos v) loc pos = inr v.
Proof.
  intros [inner Hin]. apply slots_lookup_inr.
  unfold slots_update. rewrite Hin.
  exists (dict_set inner pos v).
  by rewrite !dict_get_set_eq.
Qed.

Lemma slots_lookup_update_ne slots loc pos v loc' pos' :
  (loc, pos) ≠ (loc', pos') →
  slots_lookup (slots_update slots loc pos v) loc' pos'
  = slots_lookup slots loc' pos'.
Proof.
  intros Hne. unfold slots_update.
  destruct (dict_get slots loc) as [inner|] eqn:Hin; [|done].
  unfold slots_lookup, getitem.
  destruct (decide (loc = loc')) as [<-|Hloc].
  - rewrite dict_get_set_eq, Hin. simpl.
    rewrite dict_get_set_ne; [done|]. congruence.
  - by rewrite dict_get_set_ne.
Qed.

Lemma slots_update_update slots loc pos v v' :
  slots_update (slots_update slots loc pos v) loc pos v'
  = slots_update slots loc pos v'.
Proof.
  unfold slots_update.
  destruct (dict_get slots loc) as [inner|] eqn:Hin.
  - by rewrite dict_get_set_eq, !dict_set_set.
  - by rewrite Hin.
Qed.

Lemma slots_update_id slots loc pos v :
  slots_lookup slots loc pos = inr v → slots_update slots loc pos v = slots.
Proof.
  intros (inner & Hin & Hp)%slots_lookup_inr.
  unfold slots_update. rewrite Hin.
  rewrite (dict_set_id inner pos v Hp). by apply dict_set_id.
Qed.

Lemma slots_lookup_is_Some slots loc pos v :
  slots_lookup slots loc pos = inr v → is_Some (dict_get slots loc).
Proof. intros (inner & Hin & _)%slots_lookup_inr. eauto. Qed.

Lemma slots_update_is_Some slots loc pos v loc' :
  is_Some (dict_get (slots_update slots loc pos v) loc')
  ↔ is_Some (dict_get slots loc').
Proof.
  unfold slots_update.
  destruct (dict_get slots loc) as [inner|] eqn:Hin; [|done].
  destruct (decide (loc = loc')) as [<-|Hloc].
  - rewrite dict_get_set_eq, Hin. split; eauto.
  - by rewrite dict_get_set_ne.
Qed.

(** The items of a state around one of its cells. *)
Lemma items_update slots loc pos v0 v :
  slots_lookup slots loc pos = inr v0 →
  ∃ rest, items slots ≡ₚ cell_items v0 ++ rest
          ∧ items (slots_update slots loc pos v) ≡ₚ cell_items v ++ rest.
Proof.
  intros (inner & Hin & Hp)%slots_lookup_inr.
  unfold slots_update, items. rewrite Hin.
  destruct (dict_values_set inner pos v0 v cell_items Hp)
    as (rest1 & Hi1 & Hi2).
  destruct (dict_values_set slots loc inner (dict_set inner pos v)
              (λ i, dict_values i ≫= cell_items) Hin)
    as (rest2 & Ho1 & Ho2).
  exists (rest1 ++ rest2). split.
  - rewrite Ho1, Hi1. by rewrite (assoc app).
  - rewrite Ho2, Hi2. by rewrite (assoc app).
Qed.

(** An item that a slot holds is among the items of the state. *)
Lemma items_lookup slots loc pos x :
  slots_lookup slots loc pos = inr (Some x) → x ∈ items slots.
Proof.
  intros Hlook.
  destruct (items_update slots loc pos _ None Hlook) as (rest & -> & _).
  simpl. by left.
Qed.

(** ** What [apply_move] does *)

Lemma apply_move_run slots tag sl sp dl dp block :
  apply_move slots (mk_action tag sl sp dl dp block) =
    match slots_lookup slots sl sp with
    | inl e => (inl e, slots)
    | inr cur =>
        if decide (cur = Some block) then
          match slots_lookup slots dl dp with
          | inl e => (inl e, slots)
          | inr dst =>
              if decide (dst = None) then
                (inr tt,
                 slots_update (slots_update slots sl sp None) dl dp
                              (Some block))
              else (inl (ValueError_destination_not_empty dl dp), slots)
          end
        else (inl (ValueError_expected block sl sp cur), slots)
    end.
Proof.
  unfold apply_move, apply_move_body, mbind, slots_read, mraise.
  destruct (slots_lookup slots sl sp) as [e|cur] eqn:Hsrc; [done|].
  destruct (decide (cur = Some block)) as [->|Hcur].
  - rewrite decide_False by (intros H; by apply H).
    destruct (slots_lookup slots dl dp) as [e|dst] eqn:Hdst; [done|].
    destruct (decide (dst = None)) as [->|Hd].
    + rewrite decide_False by (intros H; by apply H).
      rewrite !slots_write_run.
      destruct (slots_lookup_is_Some _ _ _ _ Hsrc) as [i1 ->].
      destruct (slots_lookup_is_Some _ _ _ _ Hdst) as [i2 Hi2].
      rewrite slots_write_run.
      assert (is_Some (dict_get (slots_update slots sl sp None) dl))
        as [i3 ->]; [|done].
      apply slots_update_is_Some. eauto.
    + by rewrite decide_True.
  - rewrite decide_True by done. by rewrite Hsrc.
Qed.

Lemma apply_move_valid slots act :
  valid_move slots act → apply_move slots act = (inr tt, moved slots act).
Proof.
  destruct act as [tag sl sp dl dp block]. intros [Hs Hd].
  rewrite apply_move_run. act_fields.
  rewrite Hs, decide_True by done.
  by rewrite Hd, decide_True.
Qed.

Lemma apply_move_returns slots act slots' :
  apply_move slots act = (inr tt, slots') → valid_move slots act.
Proof.
  destruct act as [tag sl sp dl dp block]. rewrite apply_move_run.
  unfold valid_move; simpl.
  destruct (slots_lookup slots sl sp) as [e|cur]; [done|].
  destruct (decide (cur = Some block)) as [->|]; [|done].
  destruct (slots_lookup slots dl dp) as [e|dst]; [done|].
  by destruct (decide (dst = None)) as [->|].
Qed.

Lemma apply_move_raises slots act e slots' :
  apply_move slots act = (inl e, slots') → slots' = slots.
Proof.
  destruct act as [tag sl sp dl dp block]. rewrite apply_move_run.
  destruct (slots_lookup slots sl sp) as [?|cur]; [congruence|].
  destruct (decide (cur = Some block)); [|congruence].
  destruct (slots_lookup slots dl dp) as [?|dst]; [congruence|].
  destruct (decide (dst = None)); congruence.
Qed.

(** ** The cost evaluator *)

Lemma move_cost_run tag sl sp dl dp block :
  move_cost (mk_action tag sl sp dl dp block) =
    match dict_get SHELF_HEIGHT sp with
    | None => inl (KeyError (KInt sp))
    | Some hs =>
        match dict_get SHELF_HEIGHT dp with
        | None => inl (KeyError (KInt dp))
        | Some hd =>
            match dict_get WEIGHT block with
            | None => inl (KeyError (KStr block))
            | Some w =>
                let d := dict_get_default DIST (sl, dl) 0 in
                let v := Z.abs (hs - hd) in
                inr (w * (d + v), mk_breakdown d v w)
            end
        end
    end.
Proof.
  unfold move_cost, getitem.
  destruct (dict_get SHELF_HEIGHT sp); [|done].
  destruct (dict_get SHELF_HEIGHT dp); [|done].
  by destruct (dict_get WEIGHT block).
Qed.

(** No location is at a tabulated distance from itself. *)
Lemma DIST_diagonal loc : dict_get DIST (loc, loc) = None.
Proof.
  unfold DIST; simpl.
  repeat (case_decide as Heq; [injection Heq; congruence|clear Heq]). done.
Qed.

(** C2. For a move whose two slot positions have a height and whose item
    has a weight, [move_cost] returns
    weight * (distance + |height(source slot) - height(destination slot)|)
    and the breakdown (distance, vertical, weight).  With the tables of
    the program (weight a = 1, distance a-c = 3, heights 1 and 3 for the
    positions 1 and 2) the move ["move","a",1,"c",2,"a"] costs 5, and
    applied to a state with "a" in a:1 and c:2 empty it empties a:1 and
    puts "a" in c:2. *)
Theorem move_cost_formula_and_example :
  (∀ act hs hd w,
     dict_get SHELF_HEIGHT (act_sp act) = Some hs →
     dict_get SHELF_HEIGHT (act_dp act) = Some hd →
     dict_get WEIGHT (act_block act) = Some w →
     let d := dict_get_default DIST (act_sl act, act_dl act) 0 in
     let v := Z.abs (hs - hd) in
     move_cost act = inr (w * (d + v), mk_breakdown d v w))
  ∧ (dict_get WEIGHT "a" = Some 1
     ∧ dict_get_default DIST ("a", "c") 0 = 3
     ∧ dict_get SHELF_HEIGHT 1 = Some 1
     ∧ dict_get SHELF_HEIGHT 2 = Some 3)
  ∧ move_cost (mk_action "move" "a" 1 "c" 2 "a")
    = inr (5, mk_breakdown 3 2 1)
  ∧ (∀ slots,
       slots_lookup slots "a" 1 = inr (Some "a") →
       slots_lookup slots "c" 2 = inr None →
       ∃ slots',
         apply_move slots (mk_action "move" "a" 1 "c" 2 "a") = (inr tt, slots')
         ∧ slots_lookup slots' "a" 1 = inr None
         ∧ slots_lookup slots' "c" 2 = inr (Some "a")).
Proof.
  split; [|split; [|split]].
  - intros [tag sl sp dl dp block] hs hd w; act_fields. intros Hs Hd Hw.
    by rewrite move_cost_run, Hs, Hd, Hw.
  - done.
  - done.
  - intros slots Hsrc Hdst. eexists. split.
    + by apply apply_move_valid.
    + unfold moved; act_fields. split.
      * rewrite slots_lookup_update_ne by done.
        apply slots_lookup_update_eq. by eapply slots_lookup_is_Some.
      * apply slots_lookup_update_eq, slots_update_is_Some.
        by eapply slots_lookup_is_Some.
Qed.

Lemma move_cost_formula_and_example_witness :
  move_cost (mk_action "move" "b" 3 "c" 1 "c")
  = inr (3 * (1 + 4), mk_breakdown 1 4 3)
  ∧ ∃ slots',
      apply_move [ ("a", [ (1, Some "a"); (2, Some "b"); (3, None) ]);
                   ("b", [ (1, Some "c"); (2, None); (3, None) ]);
                   ("c", [ (1, None); (2, None); (3, None) ]) ]
                 (mk_action "move" "a" 1 "c" 2 "a") = (inr tt, slots')
      ∧ slots_lookup slots' "a" 1 = inr None
      ∧ slots_lookup slots' "c" 2 = inr (Some "a").
Proof.
  destruct move_cost_formula_and_example as (Hcost & _ & _ & Hmove).
  split.
  - apply (Hcost (mk_action "move" "b" 3 "c" 1 "c") 5 1 3); reflexivity.
  - apply Hmove; reflexivity.
Defined.

(** C7. A pair of locations that is not in the distance table counts as
    distance 0 and does not make [move_cost] fail; a slot position
    without a height and an item without a weight make it fail with a
    [KeyError] for that key. *)
Theorem move_cost_lookups act :
  (dict_get DIST (act_sl act, act_dl act) = None →
     dict_get_default DIST (act_sl act, act_dl act) 0 = 0
     ∧ ∀ hs hd w,
         dict_get SHELF_HEIGHT (act_sp act) = Some hs →
         dict_get SHELF_HEIGHT (act_dp act) = Some hd →
         dict_get WEIGHT (act_block act) = Some w →
         move_cost act
         = inr (w * (0 + Z.abs (hs - hd)), mk_breakdown 0 (Z.abs (hs - hd)) w))
  ∧ (dict_get SHELF_HEIGHT (act_sp act) = None
     ∨ dict_get SHELF_HEIGHT (act_dp act) = None
     ∨ dict_get WEIGHT (act_block act) = None →
     ∃ k, move_cost act = inl (KeyError k))
  ∧ (dict_get SHELF_HEIGHT (act_sp act) = None →
     move_cost act = inl (KeyError (KInt (act_sp act))))
  ∧ (is_Some (dict_get SHELF_HEIGHT (act_sp act)) →
     dict_get SHELF_HEIGHT (act_dp act) = None →
     move_cost act = inl (KeyError (KInt (act_dp act))))
  ∧ (is_Some (dict_get SHELF_HEIGHT (act_sp act)) →
     is_Some (dict_get SHELF_HEIGHT (act_dp act)) →
     dict_get WEIGHT (act_block act) = None →
     move_cost act = inl (KeyError (KStr (act_block act)))).
Proof.
  destruct act as [tag sl sp dl dp block]; act_fields.
  rewrite move_cost_run. unfold dict_get_default.
  split; [|split; [|split; [|split]]].
  - intros ->. split; [done|]. by intros hs hd w -> -> ->.
  - intros Hmiss.
    destruct (dict_get SHELF_HEIGHT sp) as [hs|]; [|by eexists].
    destruct (dict_get SHELF_HEIGHT dp) as [hd|]; [|by eexists].
    destruct (dict_get WEIGHT block) as [w|]; [|by eexists].
    by destruct Hmiss as [?|[?|?]].
  - by intros ->.
  - by intros [hs ->] ->.
  - by intros [hs ->] [hd ->] ->.
Qed.

Lemma move_cost_lookups_witness :
  move_cost (mk_action "move" "a" 1 "d" 3 "b")
  = inr (2 * (0 + 4), mk_breakdown 0 4 2)
  ∧ (∃ k, move_cost (mk_action "move" "a" 1 "c" 7 "b") = inl (KeyError k))
  ∧ move_cost (mk_action "move" "a" 4 "c" 1 "b") = inl (KeyError (KInt 4))
  ∧ move_cost (mk_action "move" "a" 1 "c" 0 "b") = inl (KeyError (KInt 0))
  ∧ move_cost (mk_action "move" "a" 1 "c" 2 "z") = inl (KeyError (KStr "z")).
Proof.
  split; [|split; [|split; [|split]]].
  - destruct (move_cost_lookups (mk_action "move" "a" 1 "d" 3 "b"))
      as (H & _).
    destruct H as [_ H]; [reflexivity|].
    apply (H 1 5 2); reflexivity.
  - destruct (move_cost_lookups (mk_action "move" "a" 1 "c" 7 "b"))
      as (_ & H & _).
    apply H. right. left. reflexivity.
  - destruct (move_cost_lookups (mk_action "move" "a" 4 "c" 1 "b"))
      as (_ & _ & H & _).
    apply H; reflexivity.
  - destruct (move_cost_lookups (mk_action "move" "a" 1 "c" 0 "b"))
      as (_ & _ & _ & H & _).
    apply H; [by eexists | reflexivity].
  - destruct (move_cost_lookups (mk_action "move" "a" 1 "c" 2 "z"))
      as (_ & _ & _ & _ & H).
    apply H; [by eexists | by eexists | reflexivity].
Defined.

(** ** The move executor *)

(** A move that returns has emptied its source, filled its destination
    and left the dictionaries' keys as they were. *)
Lemma slots_update_keys slots loc pos v v0 :
  slots_lookup slots loc pos = inr v0 →
  dict_keys (slots_update slots loc pos v) = dict_keys slots
  ∧ ∀ loc',
      dict_keys <$> dict_get (slots_update slots loc pos v) loc'
      = dict_keys <$> dict_get slots loc'.
Proof.
  intros (inner & Hin & Hp)%slots_lookup_inr.
  unfold slots_update. rewrite Hin. split.
  - apply dict_keys_set. eauto.
  - intros loc'. destruct (decide (loc = loc')) as [<-|Hne].
    + rewrite dict_get_set_eq, Hin. simpl. f_equal.
      apply dict_keys_set. eauto.
    + by rewrite dict_get_set_ne.
Qed.

(** The two slots of a valid move are different slots. *)
Lemma valid_move_distinct slots act :
  valid_move slots act →
  (act_sl act, act_sp act) ≠ (act_dl act, act_dp act).
Proof. intros [Hsrc Hdst] [= Hl Hp]. rewrite Hl, Hp in Hsrc. congruence. Qed.

(** C3, as the code has it.  When the source slot holds something else
    than the item of the move, [apply_move] raises the "Expected ..."
    error; when the source slot holds the item and the destination slot
    is not empty, it raises the "Destination not empty ..." error; and
    whenever it raises, for these or for a missing key, the state is as
    it was before the call. *)
Theorem apply_move_invalid slots act :
  (∀ cur,
     slots_lookup slots (act_sl act) (act_sp act) = inr cur →
     cur ≠ Some (act_block act) →
     apply_move slots act
     = (inl (ValueError_expected (act_block act) (act_sl act) (act_sp act) cur),
        slots))
  ∧ (∀ dst,
       slots_lookup slots (act_sl act) (act_sp act)
       = inr (Some (act_block act)) →
       slots_lookup slots (act_dl act) (act_dp act) = inr dst →
       dst ≠ None →
       apply_move slots act
       = (inl (ValueError_destination_not_empty (act_dl act) (act_dp act)),
          slots))
  ∧ (∀ e slots', apply_move slots act = (inl e, slots') → slots' = slots).
Proof.
  split; [|split].
  - destruct act as [tag sl sp dl dp block]; act_fields.
    intros cur Hsrc Hcur. rewrite apply_move_run, Hsrc.
    by rewrite decide_False.
  - destruct act as [tag sl sp dl dp block]; act_fields.
    intros dst Hsrc Hdst Hne. rewrite apply_move_run, Hsrc, Hdst.
    by rewrite decide_True, decide_False.
  - intros e slots'. apply apply_move_raises.
Qed.

Lemma apply_move_invalid_witness :
  let slots : slots_t :=
    [ ("a", [ (1, Some "a"); (2, Some "b"); (3, None) ]);
      ("b", [ (1, Some "c"); (2, None); (3, None) ]);
      ("c", [ (1, None); (2, None); (3, None) ]) ] in
  apply_move slots (mk_action "move" "a" 2 "c" 1 "a")
  = (inl (ValueError_expected "a" "a" 2 (Some "b")), slots)
  ∧ apply_move slots (mk_action "move" "a" 1 "b" 1 "a")
    = (inl (ValueError_destination_not_empty "b" 1), slots)
  ∧ (apply_move slots (mk_action "move" "a" 1 "d" 1 "a")).2 = slots.
Proof.
  intros slots. split; [|split].
  - destruct (apply_move_invalid slots (mk_action "move" "a" 2 "c" 1 "a"))
      as (H & _).
    apply (H (Some "b")); [reflexivity | discriminate].
  - destruct (apply_move_invalid slots (mk_action "move" "a" 1 "b" 1 "a"))
      as (_ & H & _).
    apply (H (Some "c")); [reflexivity | reflexivity | discriminate].
  - destruct (apply_move_invalid slots (mk_action "move" "a" 1 "d" 1 "a"))
      as (_ & _ & H).
    apply (H (KeyError (KStr "d"))). reflexivity.
Defined.

(** C3, as the claim has it, fails: with a:3 empty and "c" in b:1, the
    move of "a" from a:3 to b:1 has an occupied destination, and
    [apply_move] reports the source slot, not the destination. *)
Lemma apply_move_occupied_destination_counterexample :
  let slots : slots_t :=
    [ ("a", [ (1, Some "a"); (2, Some "b"); (3, None) ]);
      ("b", [ (1, Some "c"); (2, None); (3, None) ]);
      ("c", [ (1, None); (2, None); (3, None) ]) ] in
  let act := mk_action "move" "a" 3 "b" 1 "a" in
  start_slots "s1" = inr slots
  ∧ slots_lookup slots (act_dl act) (act_dp act) = inr (Some "c")
  ∧ apply_move slots act = (inl (ValueError_expected "a" "a" 3 None), slots)
  ∧ message (ValueError_expected "a" "a" 3 None)
    = Some "Expected a at a:3, found None"
  ∧ apply_move slots act
    ≠ (inl (ValueError_destination_not_empty "b" 1), slots).
Proof. by repeat split. Qed.

(** C4. Applying a valid move and then the move with source and
    destination swapped gives back the state the first move started
    from. *)
Theorem apply_move_round_trip slots act :
  valid_move slots act →
  (act_sl act, act_sp act) ≠ (act_dl act, act_dp act) →
  ∃ slots',
    apply_move slots act = (inr tt, slots')
    ∧ apply_move slots' (reverse_move act) = (inr tt, slots).
Proof.
  intros Hvalid Hne. pose proof Hvalid as [Hsrc Hdst].
  eexists. split; [by apply apply_move_valid|].
  set (s1 := slots_update slots (act_sl act) (act_sp act) None).
  assert (slots_lookup s1 (act_dl act) (act_dp act) = inr None) as Hdst1.
  { unfold s1. by rewrite slots_lookup_update_ne. }
  assert (is_Some (dict_get s1 (act_dl act))) as Hdl
    by (by eapply slots_lookup_is_Some).
  rewrite apply_move_valid.
  - f_equal. unfold moved; simpl. fold s1.
    rewrite slots_update_update, (slots_update_id s1) by done.
    unfold s1. rewrite slots_update_update. by apply slots_update_id.
  - split; unfold moved; simpl; fold s1.
    + by apply slots_lookup_update_eq.
    + rewrite slots_lookup_update_ne by done.
      unfold s1. apply slots_lookup_update_eq.
      by eapply slots_lookup_is_Some.
Qed.

Lemma apply_move_round_trip_witness :
  let slots : slots_t :=
    [ ("a", [ (1, Some "a"); (2, Some "b"); (3, None) ]);
      ("b", [ (1, Some "c"); (2, None); (3, None) ]);
      ("c", [ (1, None); (2, None); (3, None) ]) ] in
  ∃ slots',
    apply_move slots (mk_action "move" "a" 2 "a" 3 "b") = (inr tt, slots')
    ∧ apply_move slots' (mk_action "move" "a" 3 "a" 2 "b") = (inr tt, slots).
Proof.
  intros slots.
  apply (apply_move_round_trip slots (mk_action "move" "a" 2 "a" 3 "b")).
  - split; reflexivity.
  - discriminate.
Defined.

(** C5. A valid move leaves the multiset of the items in the slots as it
    was, and before and after it every slot holds at most one item. *)
Theorem apply_move_conserves_items slots act :
  valid_move slots act →
  ∃ slots',
    apply_move slots act = (inr tt, slots')
    ∧ items slots' ≡ₚ items slots
    ∧ ∀ s loc pos v,
        s = slots ∨ s = slots' →
        slots_lookup s loc pos = inr v → (length (cell_items v) ≤ 1)%nat.
Proof.
  intros Hvalid. pose proof Hvalid as [Hsrc Hdst].
  eexists. split; [by apply apply_move_valid|]. split.
  - unfold moved.
    set (s1 := slots_update slots (act_sl act) (act_sp act) None).
    destruct (items_update slots _ _ _ None Hsrc) as (r1 & Hr1 & Hr1').
    fold s1 in Hr1'.
    assert (slots_lookup s1 (act_dl act) (act_dp act) = inr None) as Hdst1.
    { unfold s1. rewrite slots_lookup_update_ne; [done|].
      by eapply valid_move_distinct. }
    destruct (items_update s1 _ _ _ (Some (act_block act)) Hdst1)
      as (r2 & Hr2 & Hr2').
    rewrite Hr2', Hr1. simpl in *. by rewrite <- Hr2, Hr1'.
  - intros s loc pos [x|] _ _; simpl; lia.
Qed.

Lemma apply_move_conserves_items_witness :
  let slots : slots_t :=
    [ ("a", [ (1, Some "a"); (2, Some "b"); (3, None) ]);
      ("b", [ (1, Some "c"); (2, None); (3, None) ]);
      ("c", [ (1, None); (2, None); (3, None) ]) ] in
  ∃ slots',
    apply_move slots (mk_action "move" "a" 2 "c" 1 "b") = (inr tt, slots')
    ∧ items slots' ≡ₚ ["a"; "b"; "c"].
Proof.
  intros slots.
  destruct (apply_move_conserves_items slots
              (mk_action "move" "a" 2 "c" 1 "b"))
    as (slots' & Hrun & Hitems & _).
  - split; reflexivity.
  - exists slots'. split; [exact Hrun | exact Hitems].
Defined.

(** C6. A valid move changes the state at its two slots only: the source
    slot becomes empty, the destination slot holds the item, and every
    other cell, present or not, reads as before. *)
Theorem apply_move_frame slots act :
  valid_move slots act →
  ∃ slots',
    apply_move slots act = (inr tt, slots')
    ∧ slots_lookup slots' (act_sl act) (act_sp act) = inr None
    ∧ slots_lookup slots' (act_dl act) (act_dp act)
      = inr (Some (act_block act))
    ∧ ∀ loc pos,
        (loc, pos) ≠ (act_sl act, act_sp act) →
        (loc, pos) ≠ (act_dl act, act_dp act) →
        slots_lookup slots' loc pos = slots_lookup slots loc pos.
Proof.
  intros Hvalid. pose proof Hvalid as [Hsrc Hdst].
  pose proof (valid_move_distinct _ _ Hvalid) as Hne.
  eexists. split; [by apply apply_move_valid|]. unfold moved.
  split; [|split].
  - rewrite slots_lookup_update_ne by done.
    apply slots_lookup_update_eq. by eapply slots_lookup_is_Some.
  - apply slots_lookup_update_eq, slots_update_is_Some.
    by eapply slots_lookup_is_Some.
  - intros loc pos Hs Hd. by rewrite !slots_lookup_update_ne.
Qed.

Lemma apply_move_frame_witness :
  let slots : slots_t :=
    [ ("a", [ (1, Some "a"); (2, Some "b"); (3, None) ]);
      ("b", [ (1, Some "c"); (2, None); (3, None) ]);
      ("c", [ (1, None); (2, None); (3, None) ]) ] in
  ∃ slots',
    apply_move slots (mk_action "move" "b" 1 "c" 3 "c") = (inr tt, slots')
    ∧ slots_lookup slots' "b" 1 = inr None
    ∧ slots_lookup slots' "c" 3 = inr (Some "c")
    ∧ slots_lookup slots' "a" 2 = slots_lookup slots "a" 2.
Proof.
  intros slots.
  destruct (apply_move_frame slots (mk_action "move" "b" 1 "c" 3 "c"))
    as (slots' & Hrun & Hsrc & Hdst & Hother).
  - split; reflexivity.
  - exists slots'. repeat split; [exact Hrun | exact Hsrc | exact Hdst |].
    apply Hother; discriminate.
Defined.

(** C10. A move from a slot to that same slot, with the item in it, never
    goes through: [apply_move] raises the "Destination not empty ..."
    error and leaves the state as it was.  Its cost is nevertheless 0
    whenever [move_cost] returns, with distance 0 and vertical offset 0,
    and [move_cost] does return when the slot has a height and the item
    a weight. *)
Theorem self_move_rejected slots act :
  (act_sl act, act_sp act) = (act_dl act, act_dp act) →
  slots_lookup slots (act_sl act) (act_sp act) = inr (Some (act_block act)) →
  apply_move slots act
  = (inl (ValueError_destination_not_empty (act_dl act) (act_dp act)), slots)
  ∧ (∀ c br, move_cost act = inr (c, br) →
       c = 0 ∧ br_distance br = 0 ∧ br_vertical br = 0)
  ∧ (∀ h w,
       dict_get SHELF_HEIGHT (act_sp act) = Some h →
       dict_get WEIGHT (act_block act) = Some w →
       move_cost act = inr (0, mk_breakdown 0 0 w)).
Proof.
  destruct act as [tag sl sp dl dp block]; act_fields.
  intros [= <- <-] Hsrc.
  assert (∀ h w, w * (dict_get_default DIST (sl, sl) 0 + Z.abs (h - h)) = 0)
    as Hzero.
  { intros h w. unfold dict_get_default. rewrite DIST_diagonal. simpl.
    replace (h - h) with 0 by lia. simpl. lia. }
  split; [|split].
  - rewrite apply_move_run, Hsrc, decide_True by done.
    by rewrite decide_False.
  - intros c br. rewrite move_cost_run.
    destruct (dict_get SHELF_HEIGHT sp) as [h|]; [|done].
    destruct (dict_get WEIGHT block) as [w|]; [|done].
    intros [= <- <-]; simpl. rewrite Hzero.
    unfold dict_get_default. rewrite DIST_diagonal. simpl.
    split; [done|]. split; [done|]. lia.
  - intros h w Hh Hw. rewrite move_cost_run, Hh, Hw.
    unfold dict_get_default in *. rewrite DIST_diagonal. simpl.
    replace (h - h) with 0 by lia. simpl. do 2 f_equal. lia.
Qed.

Lemma self_move_rejected_witness :
  let slots : slots_t :=
    [ ("a", [ (1, Some "a"); (2, Some "b"); (3, None) ]);
      ("b", [ (1, Some "c"); (2, None); (3, None) ]);
      ("c", [ (1, None); (2, None); (3, None) ]) ] in
  apply_move slots (mk_action "move" "a" 2 "a" 2 "b")
  = (inl (ValueError_destination_not_empty "a" 2), slots)
  ∧ move_cost (mk_action "move" "a" 2 "a" 2 "b")
    = inr (0, mk_breakdown 0 0 2).
Proof.
  intros slots.
  destruct (self_move_rejected slots (mk_action "move" "a" 2 "a" 2 "b"))
    as (Hrun & _ & Hcost); [reflexivity | reflexivity |].
  split; [exact Hrun|].
  apply (Hcost 3 2); reflexivity.
Defined.

(** ** Runs of the printing and drawing code *)

Lemma runs_mret {A} (x : A) : runs (mret x) (inr x) [].
Proof. intros out. unfold mret. by rewrite app_nil_r. Qed.

Lemma runs_mlift {A} (r : result A) : runs (mlift r) r [].
Proof. intros out. unfold mlift. by rewrite app_nil_r. Qed.

Lemma runs_emit e : runs (emit e) (inr tt) [e].
Proof. by intros out. Qed.

Lemma runs_print l : runs (print l) (inr tt) [Printed l].
Proof. apply runs_emit. Qed.

Lemma runs_mbind {A B} (m : IO A) (k : A → IO B) x evs1 r evs2 :
  runs m (inr x) evs1 → runs (k x) r evs2 →
  runs (mbind m k) r (evs1 ++ evs2).
Proof.
  intros Hm Hk out. unfold mbind. rewrite Hm, Hk. by rewrite (assoc app).
Qed.

Lemma runs_print_weights :
  runs print_weights (inr tt)
       [ Printed L_block_weights; Printed (L_weight "a" 1);
         Printed (L_weight "b" 2); Printed (L_weight "c" 3) ].
Proof.
  assert (sorted (λ x y : string * Z, String.leb x.1 y.1) WEIGHT = WEIGHT)
    as Hsorted by reflexivity.
  intros out. unfold print_weights. rewrite Hsorted.
  unfold WEIGHT, for_each, print, emit, mbind, mret.
  by rewrite <- !(assoc app).
Qed.

Lemma mapM_result_Forall {A B} (f : A → result B) (l : list A) :
  Forall (λ x, ∃ y, f x = inr y) l → ∃ ys, mapM_result f l = inr ys.
Proof.
  induction 1 as [|x l [y Hy] _ [ys IH]]; simpl; [by eexists|].
  rewrite Hy; simpl. rewrite IH; simpl. by eexists.
Qed.

Lemma format_goal_printable res :
  goal_printable res →
  ∃ text, format_goal (default [] (res_goal res)) = inr text.
Proof.
  unfold goal_printable, format_goal. intros Hkeys.
  destruct (mapM_result_Forall
              (λ k, let? sk := goal_sort_key k in ok (sk, k))
              (dict_keys (default [] (res_goal res)))) as [keyed ->].
  - eapply Forall_impl; [exact Hkeys|]. intros k [sk ->]. by eexists.
  - by eexists.
Qed.

(** The part of [visualize] that prints the goal. *)
Lemma runs_goal res :
  goal_printable res →
  ∃ evs,
    runs (if decide (default [] (res_goal res) ≠ []) then
            print L_goal_state ;;!
            let! text := mlift (format_goal (default [] (res_goal res))) in
            print (L_formatted text)
          else mret tt) (inr tt) evs
    ∧ frames evs = [].
Proof.
  intros [text Htext]%format_goal_printable.
  case_decide.
  - eexists. split.
    + eapply runs_mbind; [apply runs_print|].
      eapply runs_mbind; [rewrite Htext; apply runs_mlift|].
      apply runs_print.
    + done.
  - eexists. split; [apply runs_mret|done].
Qed.

(** ** The grid of a scenario *)

Lemma dict_keys_three {K V} (d : dict K V) k1 k2 k3 :
  dict_keys d = [k1; k2; k3] →
  ∃ v1 v2 v3, d = [(k1, v1); (k2, v2); (k3, v3)].
Proof.
  destruct d as [|[? v1] [|[? v2] [|[? v3] [|? ?]]]]; intros [= <- <- <-].
  by exists v1, v2, v3.
Qed.

Lemma elem_of_three {A} (x a b c : A) :
  x ∈ [a; b; c] ↔ x = a ∨ x = b ∨ x = c.
Proof. rewrite !elem_of_cons, elem_of_nil. tauto. Qed.

Lemma grid_explicit slots :
  grid slots →
  ∃ a1 a2 a3 b1 b2 b3 c1 c2 c3,
    slots = [ ("a", [ (1, a1); (2, a2); (3, a3) ]);
              ("b", [ (1, b1); (2, b2); (3, b3) ]);
              ("c", [ (1, c1); (2, c2); (3, c3) ]) ].
Proof.
  intros [Hkeys Hinner].
  destruct (dict_keys_three _ _ _ _ Hkeys) as (ia & ib & ic & ->).
  pose proof (Hinner "a" ltac:(apply elem_of_three; auto)) as [= Ha].
  pose proof (Hinner "b" ltac:(apply elem_of_three; auto)) as [= Hb].
  pose proof (Hinner "c" ltac:(apply elem_of_three; auto)) as [= Hc].
  destruct (dict_keys_three _ _ _ _ Ha) as (a1 & a2 & a3 & ->).
  destruct (dict_keys_three _ _ _ _ Hb) as (b1 & b2 & b3 & ->).
  destruct (dict_keys_three _ _ _ _ Hc) as (c1 & c2 & c3 & ->).
  by exists a1, a2, a3, b1, b2, b3, c1, c2, c3.
Qed.

Lemma grid_start_slots sid slots : start_slots sid = inr slots → grid slots.
Proof.
  unfold start_slots, ok, raise. intros Hstart.
  repeat case_decide; simplify_eq;
    (split; [done|]);
    intros loc [->|[->| ->]]%elem_of_three;
    done.
Qed.

Lemma grid_update slots loc pos v v0 :
  grid slots → slots_lookup slots loc pos = inr v0 →
  grid (slots_update slots loc pos v).
Proof.
  intros [Hkeys Hinner] Hlook.
  destruct (slots_update_keys slots loc pos v v0 Hlook) as [Hk Hi].
  split; [by rewrite Hk|].
  intros loc'. rewrite Hk, Hi. apply Hinner.
Qed.

Lemma slots_lookup_key slots loc pos v :
  slots_lookup slots loc pos = inr v → loc ∈ dict_keys slots.
Proof.
  intros (inner & Hin & _)%slots_lookup_inr. unfold dict_keys.
  induction slots as [|[k i] slots IH]; simpl in *; [done|].
  case_decide; [subst; left | right; by apply IH].
Qed.

Lemma grid_apply_move slots act slots' :
  grid slots → apply_move slots act = (inr tt, slots') →
  grid slots'
  ∧ act_sl act ∈ dict_keys slots' ∧ act_dl act ∈ dict_keys slots'.
Proof.
  intros Hgrid Hrun.
  pose proof (apply_move_returns _ _ _ Hrun) as Hvalid.
  rewrite apply_move_valid in Hrun by done. injection Hrun as <-.
  pose proof Hvalid as [Hs Hd].
  assert (grid (moved slots act)) as Hgrid'.
  { eapply grid_update.
    - by eapply grid_update.
    - rewrite slots_lookup_update_ne; [done|].
      by eapply valid_move_distinct. }
  split; [done|].
  destruct Hgrid as [Hkeys _], Hgrid' as [Hkeys' _].
  rewrite Hkeys', <- Hkeys. split; by eapply slots_lookup_key.
Qed.

(** On the grid of a scenario [render] returns a frame of the step asked
    for, with or without a move whose locations are on the grid. *)
Lemma render_grid slots step title out_dir current_move :
  grid slots →
  (∀ act, current_move = Some act →
     act_sl act ∈ dict_keys slots ∧ act_dl act ∈ dict_keys slots) →
  ∃ fr, render slots step title out_dir current_move = inr fr
        ∧ fr_step fr = step ∧ fr_out_dir fr = out_dir.
Proof.
  intros Hgrid Hmove.
  destruct (grid_explicit _ Hgrid)
    as (a1 & a2 & a3 & b1 & b2 & b3 & c1 & c2 & c3 & ->).
  destruct current_move as [[tag sl sp dl dp block]|].
  - destruct (Hmove _ eq_refl) as [Hsl Hdl]; simpl in Hsl, Hdl.
    apply elem_of_three in Hsl as [->|[->| ->]];
      apply elem_of_three in Hdl as [->|[->| ->]];
      by eexists.
  - by eexists.
Qed.

(** ** Frames and the final summary of a run *)

Lemma frames_app out1 out2 : frames (out1 ++ out2) = frames out1 ++ frames out2.
Proof. apply omap_app. Qed.

Lemma printed_app out1 out2 :
  printed (out1 ++ out2) = printed out1 ++ printed out2.
Proof. apply omap_app. Qed.

Lemma final_summary_saved out fr : final_summary (out ++ [Saved fr]) = [].
Proof. unfold final_summary. by rewrite foldl_app. Qed.

Lemma final_summary_printed out l :
  final_summary (out ++ [Printed l]) = final_summary out ++ [l].
Proof. unfold final_summary. by rewrite foldl_app. Qed.

Lemma final_summary_after_frame out fr l1 l2 :
  final_summary (out ++ [Saved fr] ++ [Printed l1; Printed l2]) = [l1; l2].
Proof.
  replace (out ++ [Saved fr] ++ [Printed l1; Printed l2])
    with (((out ++ [Saved fr]) ++ [Printed l1]) ++ [Printed l2])
    by (by rewrite <- !(assoc app)).
  by rewrite !final_summary_printed, final_summary_saved.
Qed.

(** The total of [run_plan] is the sum of the costs of the moves. *)
Lemma run_plan_total plan : ∀ slots final total,
  run_plan slots plan = inr (final, total) →
  ∃ costs, mapM_result move_cost plan = inr costs
           ∧ total = foldr Z.add 0 (costs.*1).
Proof.
  induction plan as [|act plan IH]; simpl; intros slots final total.
  - intros [= <- <-]. by exists [].
  - destruct (move_cost act) as [e|[c br]]; simpl; [done|].
    destruct (apply_move slots act) as [[e|[]] slots']; simpl; [done|].
    destruct (run_plan slots' plan) as [e|[final' total']] eqn:Hrest;
      simpl; [done|].
    intros [= <- <-]. destruct (IH _ _ _ Hrest) as (costs & -> & ->).
    by exists ((c, br) :: costs).
Qed.

Section visualize_facts.
Variable run_prolog : string → string → option Z → result solver_result.

(** The loop over a plan that passes every step: it returns the state
    and the total of [run_plan], saves one frame per move, and ends on
    the frame of the last move. *)
Lemma runs_replay title out_dir plan : ∀ i slots running_cost final total,
  grid slots →
  run_plan slots plan = inr (final, total) →
  ∃ evs,
    runs (replay title out_dir i plan slots running_cost)
         (inr (final, running_cost + total)) evs
    ∧ length (frames evs) = length plan
    ∧ (plan = [] → evs = [])
    ∧ (evs = [] ∨ ∃ evs' fr, evs = evs' ++ [Saved fr]).
Proof.
  induction plan as [|act plan IH]; simpl;
    intros i slots rc final total Hgrid.
  - intros [= <- <-]. exists []. rewrite Z.add_0_r.
    split; [apply runs_mret|]. auto.
  - destruct (move_cost act) as [e|[c br]] eqn:Hcost; simpl; [done|].
    destruct (apply_move slots act) as [[e|[]] slots'] eqn:Hmove;
      simpl; [done|].
    destruct (run_plan slots' plan) as [e|[final' total']] eqn:Hrest;
      simpl; [done|].
    intros [= <- <-].
    destruct (grid_apply_move _ _ _ Hgrid Hmove) as (Hgrid' & Hsl & Hdl).
    destruct (render_grid slots' i title out_dir (Some act) Hgrid')
      as (fr & Hfr & _); [by intros ? [= <-]|].
    destruct (IH (S i) slots' (rc + c) _ _ Hgrid' Hrest)
      as (evs & Hruns & Hlen & _ & Hlast).
    eexists. split; [|split; [|split]].
    + eapply runs_mbind; [apply runs_mlift|]. simpl.
      eapply runs_mbind; [apply runs_print|].
      eapply runs_mbind; [apply runs_print|].
      eapply (runs_mbind _ _ slots' []).
      { intros out. by rewrite app_nil_r. }
      eapply runs_mbind; [apply runs_print|].
      eapply runs_mbind; [apply runs_print|].
      eapply runs_mbind.
      { unfold draw_grid. eapply runs_mbind; [rewrite Hfr; apply runs_mlift|].
        apply runs_emit. }
      rewrite Z.add_assoc. apply Hruns.
    + simpl. by rewrite Hlen.
    + done.
    + right. destruct Hlast as [->|(evs' & fr' & ->)].
      * by exists [Printed (L_step i act); Printed (L_step_cost br c);
                   Printed L_state;
                   Printed (L_formatted (format_state slots'))], fr.
      * eexists (_ :: _ :: _ :: _ :: _ :: evs'), fr'. done.
Qed.

Lemma runs_eq {A} (m : IO A) r evs evs' :
  runs m r evs → evs = evs' → runs m r evs'.
Proof. by intros ? <-. Qed.

(** A run on an answer with a plan that passes every step. *)
Lemma runs_visualize_plan pl_file sid budget res plan c b slots final total :
  run_prolog pl_file sid budget = inr res →
  res_ok res = Some true →
  res_plan res = Some plan →
  res_cost res = Some c →
  res_budget res = Some b →
  goal_printable res →
  start_slots sid = inr slots →
  run_plan slots plan = inr (final, total) →
  ∃ pre fr0 steps,
    runs (visualize run_prolog pl_file sid budget) (inr tt)
         (pre ++ [Saved fr0] ++ steps
              ++ [ Printed (L_total_cost_python total);
                   Printed (L_images_saved ("viz_" +:+ sid)) ])
    ∧ frames pre = []
    ∧ L_total_cost_prolog c ∈ printed pre
    ∧ render slots 0
             (sid +:+ " (cost=" +:+ pretty c +:+ ", budget=" +:+ pretty b
                  +:+ ")")
             ("viz_" +:+ sid) None = inr fr0
    ∧ length (frames steps) = length plan
    ∧ (plan = [] → steps = [])
    ∧ (steps = [] ∨ ∃ steps' fr, steps = steps' ++ [Saved fr]).
Proof.
  intros Hres Hok Hplan Hcost Hbudget Hgoal Hstart Hrun.
  pose proof (grid_start_slots _ _ Hstart) as Hgrid.
  destruct (runs_goal res Hgoal) as (goal_evs & Hgoal_runs & Hgoal_frames).
  set (title := sid +:+ " (cost=" +:+ pretty c +:+ ", budget=" +:+ pretty b
                    +:+ ")").
  destruct (render_grid slots 0%nat title ("viz_" +:+ sid) None Hgrid)
    as (fr0 & Hfr0 & _); [done|].
  destruct (runs_replay title ("viz_" +:+ sid) plan 1%nat slots 0 _ _
              Hgrid Hrun) as (steps & Hsteps & Hlen & Hnil & Hlast).
  exists ([ Printed (L_scenario sid); Printed L_block_weights;
            Printed (L_weight "a" 1); Printed (L_weight "b" 2);
            Printed (L_weight "c" 3) ] ++ goal_evs
          ++ [ Printed (L_budget b); Printed (L_plan_steps (length plan));
               Printed (L_total_cost_prolog c); Printed L_initial_state;
               Printed (L_formatted (format_state slots)) ]),
         fr0, steps.
  split; [|split; [|split; [|split; [|split]]]];
    [| |
     rewrite !printed_app; simpl;
     repeat first [rewrite elem_of_cons | rewrite elem_of_app]; auto 20
     |done|done|done].
  - unfold visualize.
    eapply runs_eq.
    + eapply runs_mbind; [rewrite Hres; apply runs_mlift|].
      cbv beta zeta. rewrite Hok, Hplan, Hcost, Hbudget, Hstart.
      eapply runs_mbind; [apply runs_print|].
      eapply runs_mbind; [apply runs_print_weights|].
      eapply runs_mbind; [apply Hgoal_runs|].
      simpl.
      eapply runs_mbind; [apply runs_mlift|].
      eapply runs_mbind; [apply runs_mlift|].
      eapply runs_mbind; [apply runs_mlift|].
      eapply runs_mbind; [apply runs_print|].
      eapply runs_mbind; [apply runs_print|].
      eapply runs_mbind; [apply runs_print|].
      eapply runs_mbind; [apply runs_mlift|].
      eapply runs_mbind; [apply runs_print|].
      eapply runs_mbind; [apply runs_print|].
      eapply runs_mbind.
      { unfold draw_grid. fold title.
        eapply runs_mbind; [rewrite Hfr0; apply runs_mlift|].
        apply runs_emit. }
      eapply runs_mbind; [apply Hsteps|].
      eapply runs_mbind; apply runs_print.
    + simpl. by rewrite <- !(assoc app).
  - rewrite !frames_app, Hgoal_frames. done.
Qed.

End visualize_facts.

(** ** The orchestrator *)

Lemma run_visualize_runs run_prolog pl_file sid budget r evs :
  runs (visualize run_prolog pl_file sid budget) r evs →
  run_visualize run_prolog pl_file sid budget = (r, evs).
Proof. intros Hruns. unfold run_visualize. by rewrite Hruns. Qed.

(** C1, as the code has it.  For an answer with a plan that passes every
    step, [visualize] returns, having printed the cost that the planner
    reported before the replay and, once the last frame is saved, the
    total that it accumulated itself (the sum of the costs of the moves)
    and the output directory.  These two lines are all it prints after
    the replay: the two costs are shown, not compared. *)
Theorem visualize_prints_both_costs run_prolog pl_file sid budget res plan
    c b slots final total :
  run_prolog pl_file sid budget = inr res →
  res_ok res = Some true →
  res_plan res = Some plan →
  res_cost res = Some c →
  res_budget res = Some b →
  goal_printable res →
  start_slots sid = inr slots →
  run_plan slots plan = inr (final, total) →
  ∃ out costs,
    run_visualize run_prolog pl_file sid budget = (inr tt, out)
    ∧ mapM_result move_cost plan = inr costs
    ∧ total = foldr Z.add 0 (costs.*1)
    ∧ L_total_cost_prolog c ∈ printed out
    ∧ final_summary out
      = [L_total_cost_python total; L_images_saved ("viz_" +:+ sid)]
    ∧ length (frames out) = S (length plan).
Proof.
  intros Hres Hok Hplan Hcost Hbudget Hgoal Hstart Hrun.
  destruct (run_plan_total _ _ _ _ Hrun) as (costs & Hcosts & Htotal).
  destruct (runs_visualize_plan run_prolog _ _ _ _ _ _ _ _ _ _
              Hres Hok Hplan Hcost Hbudget Hgoal Hstart Hrun)
    as (pre & fr0 & steps & Hruns & Hpre & Hin & _ & Hlen & _ & Hlast).
  eexists _, costs. split; [by apply run_visualize_runs|].
  split; [done|]. split; [done|]. split; [|split].
  - rewrite printed_app. apply elem_of_app. by left.
  - destruct Hlast as [->|(steps' & fr & ->)].
    + apply final_summary_after_frame.
    + rewrite <- (final_summary_after_frame (pre ++ [Saved fr0] ++ steps') fr).
      by rewrite <- !(assoc app).
  - rewrite !frames_app, Hpre. simpl. rewrite app_nil_r. by rewrite Hlen.
Qed.

Lemma visualize_prints_both_costs_witness :
  let res :=
    {| res_ok := Some true;
       res_plan := Some [mk_action "move" "a" 2 "c" 1 "b"];
       res_cost := Some 10;
       res_budget := Some 30;
       res_goal := Some [("c:1", "b")] |} in
  ∃ out,
    run_visualize (canned_planner res) "planner_astar_slots.pl" "s1" None
    = (inr tt, out)
    ∧ L_total_cost_prolog 10 ∈ printed out
    ∧ final_summary out = [L_total_cost_python 10; L_images_saved "viz_s1"].
Proof.
  intros res.
  destruct (visualize_prints_both_costs
              (canned_planner res) "planner_astar_slots.pl" "s1" None res
              [mk_action "move" "a" 2 "c" 1 "b"] 10 30
              [ ("a", [ (1, Some "a"); (2, Some "b"); (3, None) ]);
                ("b", [ (1, Some "c"); (2, None); (3, None) ]);
                ("c", [ (1, None); (2, None); (3, None) ]) ]
              [ ("a", [ (1, Some "a"); (2, None); (3, None) ]);
                ("b", [ (1, Some "c"); (2, None); (3, None) ]);
                ("c", [ (1, Some "b"); (2, None); (3, None) ]) ]
              10)
    as (out & costs & Hrun & _ & _ & Hin & Hsum & _);
    try reflexivity.
  - repeat constructor. by exists ("c", 1).
  - exists out. split; [exact Hrun|]. split; [exact Hin | exact Hsum].
Defined.

(** C1, as the claim has it, fails: for the plan that moves "b" from a:2
    to c:1 in scenario s1 the recomputed cost is 10; when the planner
    reports 99 the run ends normally and what it prints after the replay
    is what it prints when the planner reports 10. *)
Lemma visualize_cost_mismatch_counterexample :
  let answer c :=
    {| res_ok := Some true;
       res_plan := Some [mk_action "move" "a" 2 "c" 1 "b"];
       res_cost := Some c;
       res_budget := Some 30;
       res_goal := None |} in
  let run c :=
    run_visualize (canned_planner (answer c))
                  "planner_astar_slots.pl" "s1" None in
  (run 99).1 = inr tt
  ∧ final_summary (run 99).2
    = [L_total_cost_python 10; L_images_saved "viz_s1"]
  ∧ final_summary (run 99).2 = final_summary (run 10).2
  ∧ 10 ≠ 99.
Proof. by repeat split. Qed.

(** * Further properties *)

(** ** More on the move executor *)

(** The reverse of a valid move is valid in the state that the move
    leaves, and brings the first state back. *)
Lemma moved_reverse slots act :
  valid_move slots act →
  apply_move (moved slots act) (reverse_move act) = (inr tt, slots).
Proof.
  intros Hvalid. pose proof Hvalid as [Hsrc Hdst].
  pose proof (valid_move_distinct _ _ Hvalid) as Hne.
  set (s1 := slots_update slots (act_sl act) (act_sp act) None).
  assert (slots_lookup s1 (act_dl act) (act_dp act) = inr None) as Hdst1.
  { unfold s1. by rewrite slots_lookup_update_ne. }
  rewrite apply_move_valid.
  - f_equal. unfold moved; simpl. fold s1.
    rewrite slots_update_update, (slots_update_id s1) by done.
    unfold s1. rewrite slots_update_update. by apply slots_update_id.
  - split; unfold moved; simpl; fold s1.
    + apply slots_lookup_update_eq. by eapply slots_lookup_is_Some.
    + rewrite slots_lookup_update_ne by done.
      unfold s1. apply slots_lookup_update_eq.
      by eapply slots_lookup_is_Some.
Qed.

Lemma moved_items slots act :
  valid_move slots act → items (moved slots act) ≡ₚ items slots.
Proof.
  intros Hvalid. pose proof Hvalid as [Hsrc Hdst]. unfold moved.
  set (s1 := slots_update slots (act_sl act) (act_sp act) None).
  destruct (items_update slots _ _ _ None Hsrc) as (r1 & Hr1 & Hr1').
  fold s1 in Hr1'.
  assert (slots_lookup s1 (act_dl act) (act_dp act) = inr None) as Hdst1.
  { unfold s1. rewrite slots_lookup_update_ne; [done|].
    by eapply valid_move_distinct. }
  destruct (items_update s1 _ _ _ (Some (act_block act)) Hdst1)
    as (r2 & Hr2 & Hr2').
  rewrite Hr2', Hr1. simpl in *. by rewrite <- Hr2, Hr1'.
Qed.

Lemma moved_keys slots act :
  valid_move slots act →
  dict_keys (moved slots act) = dict_keys slots
  ∧ ∀ loc, dict_keys <$> dict_get (moved slots act) loc
           = dict_keys <$> dict_get slots loc.
Proof.
  intros Hvalid. pose proof Hvalid as [Hsrc Hdst]. unfold moved.
  set (s1 := slots_update slots (act_sl act) (act_sp act) None).
  assert (slots_lookup s1 (act_dl act) (act_dp act) = inr None) as Hdst1.
  { unfold s1. rewrite slots_lookup_update_ne; [done|].
    by eapply valid_move_distinct. }
  destruct (slots_update_keys slots _ _ None _ Hsrc) as [Hk1 Hi1].
  destruct (slots_update_keys s1 _ _ (Some (act_block act)) _ Hdst1)
    as [Hk2 Hi2].
  fold s1 in Hk1, Hi1. split.
  - by rewrite Hk2, Hk1.
  - intros loc. by rewrite Hi2, Hi1.
Qed.

(** X1. [apply_move] returns exactly for the valid moves: the source
    slot holds the item and the destination slot is empty; the state it
    leaves is then the one with the two slots reassigned. *)
Theorem apply_move_returns_iff_valid slots act :
  ((∃ slots', apply_move slots act = (inr tt, slots'))
   ↔ valid_move slots act)
  ∧ ∀ r slots', apply_move slots act = (r, slots') →
      slots' = match r with inr _ => moved slots act | inl _ => slots end.
Proof.
  split.
  - split.
    + intros [slots' Hrun]. by eapply apply_move_returns.
    + intros Hvalid. eexists. by apply apply_move_valid.
  - intros [e|[]] slots' Hrun.
    + by eapply apply_move_raises.
    + pose proof (apply_move_returns _ _ _ Hrun) as Hvalid.
      rewrite apply_move_valid in Hrun by done. congruence.
Qed.

(** X2. A move that names a location or a position that the state does
    not have raises [KeyError] for the missing key, the location before
    the position and the source before the destination, and leaves the
    state as it was. *)
Theorem apply_move_missing_slot slots act :
  (dict_get slots (act_sl act) = None →
     apply_move slots act = (inl (KeyError (KStr (act_sl act))), slots))
  ∧ (∀ inner,
       dict_get slots (act_sl act) = Some inner →
       dict_get inner (act_sp act) = None →
       apply_move slots act = (inl (KeyError (KInt (act_sp act))), slots))
  ∧ (slots_lookup slots (act_sl act) (act_sp act)
       = inr (Some (act_block act)) →
     dict_get slots (act_dl act) = None →
     apply_move slots act = (inl (KeyError (KStr (act_dl act))), slots))
  ∧ (∀ inner,
       slots_lookup slots (act_sl act) (act_sp act)
         = inr (Some (act_block act)) →
       dict_get slots (act_dl act) = Some inner →
       dict_get inner (act_dp act) = None →
       apply_move slots act = (inl (KeyError (KInt (act_dp act))), slots)).
Proof.
  destruct act as [tag sl sp dl dp block]; act_fields.
  rewrite apply_move_run.
  split; [|split; [|split]].
  - intros Hloc. unfold slots_lookup, getitem. by rewrite Hloc.
  - intros inner Hloc Hpos. unfold slots_lookup, getitem.
    rewrite Hloc; simpl. by rewrite Hpos.
  - intros -> Hloc. rewrite decide_True by done.
    unfold slots_lookup, getitem. by rewrite Hloc.
  - intros inner -> Hloc Hpos. rewrite decide_True by done.
    unfold slots_lookup, getitem. rewrite Hloc; simpl. by rewrite Hpos.
Qed.

Lemma apply_move_missing_slot_witness :
  let slots : slots_t :=
    [ ("a", [ (1, Some "a"); (2, Some "b"); (3, None) ]);
      ("b", [ (1, Some "c"); (2, None); (3, None) ]);
      ("c", [ (1, None); (2, None); (3, None) ]) ] in
  apply_move slots (mk_action "move" "d" 1 "a" 3 "a")
  = (inl (KeyError (KStr "d")), slots)
  ∧ apply_move slots (mk_action "move" "a" 4 "a" 3 "a")
    = (inl (KeyError (KInt 4)), slots)
  ∧ apply_move slots (mk_action "move" "a" 1 "d" 3 "a")
    = (inl (KeyError (KStr "d")), slots)
  ∧ apply_move slots (mk_action "move" "a" 1 "c" 4 "a")
    = (inl (KeyError (KInt 4)), slots).
Proof.
  intros slots. split; [|split; [|split]].
  - destruct (apply_move_missing_slot slots
                (mk_action "move" "d" 1 "a" 3 "a")) as (H & _).
    apply H. reflexivity.
  - destruct (apply_move_missing_slot slots
                (mk_action "move" "a" 4 "a" 3 "a")) as (_ & H & _).
    eapply H; reflexivity.
  - destruct (apply_move_missing_slot slots
                (mk_action "move" "a" 1 "d" 3 "a")) as (_ & _ & H & _).
    apply H; reflexivity.
  - destruct (apply_move_missing_slot slots
                (mk_action "move" "a" 1 "c" 4 "a")) as (_ & _ & _ & H).
    eapply H; reflexivity.
Defined.

(** X3. Whatever a call of [apply_move] does, the state has the same
    locations and every location the same positions afterwards, in the
    same order: a move never adds or removes a slot. *)
Theorem apply_move_keeps_slots slots act :
  dict_keys (apply_move slots act).2 = dict_keys slots
  ∧ ∀ loc,
      dict_keys <$> dict_get (apply_move slots act).2 loc
      = dict_keys <$> dict_get slots loc.
Proof.
  destruct (apply_move slots act) as [[e|[]] slots'] eqn:Hrun; simpl.
  - by rewrite (apply_move_raises _ _ _ _ Hrun).
  - pose proof (apply_move_returns _ _ _ Hrun) as Hvalid.
    rewrite apply_move_valid in Hrun by done. injection Hrun as <-.
    by apply moved_keys.
Qed.

(** ** More on the cost evaluator *)

Lemma SHELF_HEIGHT_values p h :
  dict_get SHELF_HEIGHT p = Some h → h = 1 ∨ h = 3 ∨ h = 5.
Proof.
  unfold SHELF_HEIGHT; simpl. repeat case_decide; naive_solver.
Qed.

Lemma WEIGHT_values b w :
  dict_get WEIGHT b = Some w → w = 1 ∨ w = 2 ∨ w = 3.
Proof.
  unfold WEIGHT; simpl. repeat case_decide; naive_solver.
Qed.

Lemma DIST_values k : 0 ≤ dict_get_default DIST k 0 ≤ 3.
Proof.
  unfold dict_get_default, DIST; simpl. repeat case_decide; simpl; lia.
Qed.

(** The distance table is symmetric. *)
Lemma DIST_symmetric l1 l2 : dict_get DIST (l1, l2) = dict_get DIST (l2, l1).
Proof.
  unfold DIST; simpl.
  repeat (case_decide; simplify_eq); done.
Qed.

Lemma move_cost_range act c br :
  move_cost act = inr (c, br) → 0 ≤ c ≤ 21.
Proof.
  destruct act as [tag sl sp dl dp block]. rewrite move_cost_run.
  destruct (dict_get SHELF_HEIGHT sp) as [hs|] eqn:Hs; [|done].
  destruct (dict_get SHELF_HEIGHT dp) as [hd|] eqn:Hd; [|done].
  destruct (dict_get WEIGHT block) as [w|] eqn:Hw; [|done].
  intros [= <- <-].
  pose proof (DIST_values (sl, dl)).
  pose proof (SHELF_HEIGHT_values _ _ Hs).
  pose proof (SHELF_HEIGHT_values _ _ Hd).
  pose proof (WEIGHT_values _ _ Hw). nia.
Qed.

Lemma move_cost_reverse_move act c br :
  move_cost act = inr (c, br) → move_cost (reverse_move act) = inr (c, br).
Proof.
  destruct act as [tag sl sp dl dp block]. unfold reverse_move; act_fields.
  rewrite !move_cost_run.
  destruct (dict_get SHELF_HEIGHT sp) as [hs|]; [|done].
  destruct (dict_get SHELF_HEIGHT dp) as [hd|]; [|done].
  destruct (dict_get WEIGHT block) as [w|]; [|done].
  intros [= <- <-]. unfold dict_get_default.
  rewrite (DIST_symmetric dl sl).
  replace (Z.abs (hd - hs)) with (Z.abs (hs - hd)) by lia. done.
Qed.

(** X4. Whenever [move_cost] returns, the distance is between 0 and 3,
    the vertical offset is 0, 2 or 4, the weight is 1, 2 or 3 and the
    cost is their combination, between 0 and 21: a cost is never
    negative, and it is 0 only for a move inside one column of equal
    heights or between locations without a tabulated distance. *)
Theorem move_cost_bounds act c br :
  move_cost act = inr (c, br) →
  0 ≤ br_distance br ≤ 3
  ∧ (br_vertical br = 0 ∨ br_vertical br = 2 ∨ br_vertical br = 4)
  ∧ 1 ≤ br_weight br ≤ 3
  ∧ c = br_weight br * (br_distance br + br_vertical br)
  ∧ 0 ≤ c ≤ 21
  ∧ (c = 0 ↔ br_distance br = 0 ∧ br_vertical br = 0).
Proof.
  destruct act as [tag sl sp dl dp block]. rewrite move_cost_run.
  destruct (dict_get SHELF_HEIGHT sp) as [hs|] eqn:Hs; [|done].
  destruct (dict_get SHELF_HEIGHT dp) as [hd|] eqn:Hd; [|done].
  destruct (dict_get WEIGHT block) as [w|] eqn:Hw; [|done].
  intros [= <- <-]; simpl.
  pose proof (DIST_values (sl, dl)) as Hdist.
  apply SHELF_HEIGHT_values in Hs, Hd. apply WEIGHT_values in Hw.
  assert (Z.abs (hs - hd) = 0 ∨ Z.abs (hs - hd) = 2 ∨ Z.abs (hs - hd) = 4)
    as Hv by lia.
  split; [done|]. split; [done|]. split; [lia|]. split; [done|].
  split; [nia|]. split; [nia|]. intros [-> ->]. lia.
Qed.

Lemma move_cost_bounds_witness :
  let act := mk_action "move" "a" 3 "c" 1 "c" in
  let br := mk_breakdown 3 4 3 in
  move_cost act = inr (21, br)
  ∧ 0 ≤ br_distance br ≤ 3
  ∧ (br_vertical br = 0 ∨ br_vertical br = 2 ∨ br_vertical br = 4)
  ∧ 1 ≤ br_weight br ≤ 3
  ∧ 21 = br_weight br * (br_distance br + br_vertical br)
  ∧ 0 ≤ 21 ≤ 21
  ∧ (21 = 0 ↔ br_distance br = 0 ∧ br_vertical br = 0).
Proof.
  intros act br. split; [reflexivity|].
  apply (move_cost_bounds act 21 br). reflexivity.
Defined.

(** X5. A move and the move back cost the same: when [move_cost] returns
    for a move it returns the same cost and the same breakdown for the
    move with source and destination swapped. *)
Theorem move_cost_symmetric act c br :
  move_cost act = inr (c, br) →
  move_cost (reverse_move act) = inr (c, br)
  ∧ reverse_move (reverse_move act) = act.
Proof.
  intros Hcost. split; [by apply move_cost_reverse_move|].
  by destruct act.
Qed.

Lemma move_cost_symmetric_witness :
  move_cost (mk_action "move" "c" 3 "b" 1 "b")
  = inr (10, mk_breakdown 1 4 2)
  ∧ reverse_move (reverse_move (mk_action "move" "b" 1 "c" 3 "b"))
    = mk_action "move" "b" 1 "c" 3 "b".
Proof.
  apply (move_cost_symmetric (mk_action "move" "b" 1 "c" 3 "b")).
  reflexivity.
Defined.

(** ** Replaying a plan *)

Lemma run_plan_cons slots act plan :
  run_plan slots (act :: plan) =
    match move_cost act with
    | inl e => inl e
    | inr (c, _) =>
        match apply_move slots act with
        | (inl e, _) => inl e
        | (inr _, slots') =>
            match run_plan slots' plan with
            | inl e => inl e
            | inr (final, total) => inr (final, c + total)
            end
        end
    end.
Proof.
  simpl. destruct (move_cost act) as [e|[c br]]; simpl; [done|].
  destruct (apply_move slots act) as [[e|[]] slots']; [done|].
  by destruct (run_plan slots' plan) as [e|[final total]].
Qed.

Lemma run_plan_nil slots : run_plan slots [] = inr (slots, 0).
Proof. done. Qed.

Lemma run_plan_snoc plan act : ∀ slots,
  run_plan slots (plan ++ [act]) =
    match run_plan slots plan with
    | inl e => inl e
    | inr (mid, total) =>
        match run_plan mid [act] with
        | inl e => inl e
        | inr (final, c) => inr (final, total + c)
        end
    end.
Proof.
  induction plan as [|act' plan IH]; intros slots.
  - rewrite app_nil_l, run_plan_nil.
    by destruct (run_plan slots [act]) as [e|[final c]].
  - rewrite <- app_comm_cons, !(run_plan_cons _ act').
    destruct (move_cost act') as [e|[c' br]]; [done|].
    destruct (apply_move slots act') as [[e|[]] slots']; [done|].
    rewrite IH.
    destruct (run_plan slots' plan) as [e|[mid total]]; [done|].
    destruct (run_plan mid [act]) as [e|[final c]]; [done|].
    by rewrite Z.add_assoc.
Qed.

(** X6. Replaying a plan in two parts is replaying it whole: the second
    part starts from the state that the first leaves, the totals add up,
    and a failure in the first part is the failure of the whole. *)
Theorem run_plan_app plan1 plan2 : ∀ slots,
  run_plan slots (plan1 ++ plan2) =
    match run_plan slots plan1 with
    | inl e => inl e
    | inr (mid, total1) =>
        match run_plan mid plan2 with
        | inl e => inl e
        | inr (final, total2) => inr (final, total1 + total2)
        end
    end.
Proof.
  induction plan1 as [|act plan1 IH]; intros slots.
  - rewrite app_nil_l, run_plan_nil.
    by destruct (run_plan slots plan2) as [e|[final total2]].
  - rewrite <- app_comm_cons, !run_plan_cons.
    destruct (move_cost act) as [e|[c br]]; [done|].
    destruct (apply_move slots act) as [[e|[]] slots']; [done|].
    rewrite IH.
    destruct (run_plan slots' plan1) as [e|[mid total1]]; [done|].
    destruct (run_plan mid plan2) as [e|[final total2]]; [done|].
    by rewrite Z.add_assoc.
Qed.

(** X7. A plan that passes every step can be undone: replaying its moves
    backwards, each with source and destination swapped, from the state
    it leaves passes every step too, ends in the state it started from
    and costs the same total. *)
Theorem run_plan_undo plan : ∀ slots final total,
  run_plan slots plan = inr (final, total) →
  run_plan final (reverse (reverse_move <$> plan)) = inr (slots, total).
Proof.
  induction plan as [|act plan IH]; intros slots final total.
  - rewrite run_plan_nil. by intros [= <- <-].
  - rewrite run_plan_cons.
    destruct (move_cost act) as [e|[c br]] eqn:Hcost; [done|].
    destruct (apply_move slots act) as [[e|[]] slots'] eqn:Hmove; [done|].
    destruct (run_plan slots' plan) as [e|[final' total']] eqn:Hrest;
      [done|].
    intros [= <- <-].
    pose proof (apply_move_returns _ _ _ Hmove) as Hvalid.
    rewrite apply_move_valid in Hmove by done. injection Hmove as <-.
    rewrite fmap_cons, reverse_cons, run_plan_snoc, (IH _ _ _ Hrest).
    rewrite run_plan_cons, (move_cost_reverse_move _ _ _ Hcost).
    rewrite moved_reverse, run_plan_nil by done.
    f_equal. f_equal. lia.
Qed.

Lemma run_plan_undo_witness :
  let slots : slots_t :=
    [ ("a", [ (1, Some "a"); (2, Some "b"); (3, None) ]);
      ("b", [ (1, Some "c"); (2, None); (3, None) ]);
      ("c", [ (1, None); (2, None); (3, None) ]) ] in
  let final : slots_t :=
    [ ("a", [ (1, Some "a"); (2, None); (3, None) ]);
      ("b", [ (1, None); (2, None); (3, None) ]);
      ("c", [ (1, Some "b"); (2, Some "c"); (3, None) ]) ] in
  run_plan final [ mk_action "move" "c" 2 "b" 1 "c";
                   mk_action "move" "c" 1 "a" 2 "b" ]
  = inr (slots, 19).
Proof.
  intros slots final.
  apply (run_plan_undo [ mk_action "move" "a" 2 "c" 1 "b";
                         mk_action "move" "b" 1 "c" 2 "c" ] slots final 19).
  reflexivity.
Defined.

Lemma start_slots_items sid slots :
  start_slots sid = inr slots → items slots ≡ₚ ["a"; "b"; "c"].
Proof.
  unfold start_slots, ok, raise. intros Hstart.
  repeat case_decide; simplify_eq; unfold items; simpl; [done| |done|done].
  apply (reverse_Permutation ["a"; "b"; "c"]).
Qed.

(** X8. Along a replay that starts from the initial state of a scenario
    the state stays the grid of the three locations with their three
    positions and holds the items a, b and c once each; the total of a
    plan that passes every step lies between 0 and 21 for each move. *)
Theorem run_plan_keeps_scenario sid plan slots final total :
  start_slots sid = inr slots →
  run_plan slots plan = inr (final, total) →
  grid final
  ∧ items final ≡ₚ ["a"; "b"; "c"]
  ∧ 0 ≤ total ≤ 21 * Z.of_nat (length plan).
Proof.
  intros Hstart.
  pose proof (grid_start_slots _ _ Hstart) as Hgrid.
  pose proof (start_slots_items _ _ Hstart) as Hitems.
  clear Hstart. revert slots final total Hgrid Hitems.
  induction plan as [|act plan IH]; intros slots final total Hgrid Hitems.
  - rewrite run_plan_nil. intros [= <- <-]. simpl. split; [done|].
    split; [done|lia].
  - rewrite run_plan_cons.
    destruct (move_cost act) as [e|[c br]] eqn:Hcost; [done|].
    destruct (apply_move slots act) as [[e|[]] slots'] eqn:Hmove; [done|].
    destruct (run_plan slots' plan) as [e|[final' total']] eqn:Hrest;
      [done|].
    intros [= <- <-].
    destruct (grid_apply_move _ _ _ Hgrid Hmove) as [Hgrid' _].
    pose proof (apply_move_returns _ _ _ Hmove) as Hvalid.
    rewrite apply_move_valid in Hmove by done. injection Hmove as <-.
    destruct (IH _ _ _ Hgrid' ltac:(by rewrite moved_items) Hrest)
      as (Hg & Hi & Ht).
    pose proof (move_cost_range _ _ _ Hcost).
    split; [done|]. split; [done|].
    rewrite length_cons. lia.
Qed.

Lemma run_plan_keeps_scenario_witness :
  let final : slots_t :=
    [ ("a", [ (1, Some "a"); (2, None); (3, None) ]);
      ("b", [ (1, None); (2, None); (3, None) ]);
      ("c", [ (1, Some "b"); (2, Some "c"); (3, None) ]) ] in
  grid final ∧ items final ≡ₚ ["a"; "b"; "c"] ∧ 0 ≤ 19 ≤ 21 * Z.of_nat 2.
Proof.
  intros final.
  apply (run_plan_keeps_scenario "s1"
           [ mk_action "move" "a" 2 "c" 1 "b";
             mk_action "move" "b" 1 "c" 2 "c" ]
           [ ("a", [ (1, Some "a"); (2, Some "b"); (3, None) ]);
             ("b", [ (1, Some "c"); (2, None); (3, None) ]);
             ("c", [ (1, None); (2, None); (3, None) ]) ]
           final 19); reflexivity.
Defined.

(** ** Numbers as text *)

Lemma digit_of_pretty_N_char d :
  (d < 10)%N → digit_of (pretty_N_char d) = Some (Z.of_N d).
Proof.
  intros Hd.
  assert (d = 0 ∨ d = 1 ∨ d = 2 ∨ d = 3 ∨ d = 4 ∨ d = 5 ∨ d = 6 ∨ d = 7
          ∨ d = 8 ∨ d = 9)%N as Hcases by lia.
  repeat (destruct Hcases as [->|Hcases]; [done|]). by subst.
Qed.

(** Reading the digits that [pretty_N_go] writes in front of [s]. *)
Lemma parse_digits_pretty_N_go x : ∀ s,
  ∃ p, ∀ acc,
    parse_digits (pretty_N_go x s) acc
    = parse_digits s (acc * p + Z.of_N x).
Proof.
  induction (N.lt_wf_0 x) as [x _ IH]; intros s.
  destruct (decide (x = 0%N)) as [->|Hx].
  - exists 1. intros acc. rewrite pretty_N_go_0. f_equal. lia.
  - rewrite pretty_N_go_step by lia.
    destruct (IH (x `div` 10)%N ltac:(apply N.div_lt; lia)
                (String (pretty_N_char (x `mod` 10)) s)) as [p Hp].
    exists (10 * p). intros acc. rewrite Hp. simpl.
    rewrite digit_of_pretty_N_char by (apply N.mod_lt; lia).
    f_equal. rewrite (N.div_mod x 10) at 3 by lia. lia.
Qed.

Lemma parse_digits_pretty_N (n : N) : parse_digits (pretty n) 0 = Some (Z.of_N n).
Proof.
  unfold pretty, pretty_N. case_decide as Hn; [by subst|].
  destruct (parse_digits_pretty_N_go n "") as [p Hp]. by rewrite Hp.
Qed.

(** A string of digits has no colon and starts with no sign. *)
Lemma parse_digits_no_colon s : ∀ acc v,
  parse_digits s acc = Some v → no_colon s.
Proof.
  unfold no_colon.
  induction s as [|c s IH]; intros acc v; simpl; [done|].
  destruct (digit_of c) as [d|] eqn:Hd; [|done].
  intros Hparse. rewrite (IH _ _ Hparse).
  case_decide as Hc; [|done]. by subst.
Qed.

Lemma digit_of_byte c d : digit_of c = Some d → 48 ≤ byte c ≤ 57.
Proof. unfold digit_of, byte. by case_decide. Qed.

Lemma parse_digits_is_ascii s : ∀ acc n,
  parse_digits s acc = Some n → is_ascii s = true.
Proof.
  induction s as [|c s IH]; intros acc n; simpl; [done|].
  destruct (digit_of c) as [d|] eqn:Hd; [|done].
  intros Hparse. rewrite (IH _ _ Hparse).
  apply digit_of_byte in Hd. rewrite bool_decide_true by lia. done.
Qed.

Lemma parse_digits_scan_digits s : ∀ acc n,
  parse_digits s acc = Some n → scan_digits s acc false = Some (n, "").
Proof.
  induction s as [|c s IH]; intros acc n; simpl; [by intros [= ->]|].
  destruct (digit_of c) as [d|]; [|done]. apply IH.
Qed.

(** The second pass on a text of digits, behind a sign or not. *)
Lemma py_int_digits s n :
  s ≠ "" → parse_digits s 0 = Some n → py_int s = inr n.
Proof.
  intros Hne Hparse. destruct s as [|c s]; [done|].
  pose proof (parse_digits_is_ascii _ _ _ Hparse) as Hascii.
  pose proof (parse_digits_scan_digits _ _ _ Hparse) as Hscan.
  simpl in Hparse. destruct (digit_of c) as [d|] eqn:Hd; [|done].
  pose proof (digit_of_byte _ _ Hd) as Hbyte.
  assert (is_space c = false) as Hspace.
  { unfold is_space. apply bool_decide_eq_false. lia. }
  unfold py_int, decimal_and_space_to_ascii. rewrite Hascii.
  cbn [skip_spaces]. rewrite Hspace. unfold sign_and_body.
  rewrite !decide_False by (intros ->; done).
  rewrite Hd, Hscan. simpl. by rewrite Z.mul_1_l.
Qed.

Lemma py_int_minus_digits s n :
  s ≠ "" → parse_digits s 0 = Some n → py_int ("-" +:+ s) = inr (- n).
Proof.
  intros Hne Hparse. destruct s as [|c s]; [done|].
  pose proof (parse_digits_is_ascii _ _ _ Hparse) as Hascii.
  pose proof (parse_digits_scan_digits _ _ _ Hparse) as Hscan.
  simpl in Hparse. destruct (digit_of c) as [d|] eqn:Hd; [|done].
  unfold py_int, decimal_and_space_to_ascii.
  change ("-" +:+ String c s) with (String "-" (String c s)).
  change (is_ascii (String "-" (String c s)))
    with (is_ascii (String c s)).
  rewrite Hascii.
  change (skip_spaces (String "-" (String c s)))
    with (String "-" (String c s)).
  unfold sign_and_body. rewrite decide_True by done.
  rewrite Hd, Hscan. simpl. by destruct n.
Qed.

(** [int] raises one error only. *)
Lemma py_int_error s e : py_int s = inl e → e = ValueError_int s.
Proof.
  unfold py_int, raise, ok.
  destruct (sign_and_body _) as [sign body].
  repeat case_match; by intros [= <-].
Qed.

Lemma pretty_N_nonempty (n : N) : pretty n ≠ "".
Proof.
  unfold pretty, pretty_N. case_decide as Hn; [done|].
  intros Hempty. destruct (parse_digits_pretty_N_go n "") as [p Hp].
  specialize (Hp 0). rewrite Hempty in Hp. simpl in Hp.
  injection Hp as Hp. lia.
Qed.

(** [int(str(z))] is [z]. *)
Lemma py_int_pretty (z : Z) : py_int (pretty z) = inr z.
Proof.
  destruct z as [|p|p].
  - done.
  - change (pretty (Z.pos p)) with (pretty (N.pos p)).
    apply py_int_digits; [apply pretty_N_nonempty|].
    by rewrite parse_digits_pretty_N.
  - change (pretty (Z.neg p)) with ("-" +:+ pretty (N.pos p)).
    apply (py_int_minus_digits _ (Z.pos p)); [apply pretty_N_nonempty|].
    apply (parse_digits_pretty_N (N.pos p)).
Qed.

Lemma pretty_Z_no_colon (z : Z) : no_colon (pretty z).
Proof.
  destruct z as [|p|p].
  - done.
  - eapply parse_digits_no_colon, (parse_digits_pretty_N (N.pos p)).
  - change (pretty (Z.neg p)) with ("-" +:+ pretty (N.pos p)).
    unfold no_colon. simpl.
    by rewrite (parse_digits_no_colon _ _ _ (parse_digits_pretty_N (N.pos p))).
Qed.

Lemma split_colon_nonempty s : split_colon s ≠ [].
Proof.
  destruct s as [|c s]; simpl; [done|].
  case_decide; [done|]. by destruct (split_colon s).
Qed.

Lemma split_colon_app loc rest :
  no_colon loc → split_colon (loc +:+ ":" +:+ rest) = loc :: split_colon rest.
Proof.
  unfold no_colon. induction loc as [|c loc IH]; [done|].
  change (String c loc +:+ ":" +:+ rest)
    with (String c (loc +:+ ":" +:+ rest)).
  simpl. case_decide as Hc; [done|].
  pose proof (split_colon_nonempty loc) as Hne.
  destruct (split_colon loc) as [|p ps] eqn:Hsplit; [done|].
  intros [= -> ->]. by rewrite IH.
Qed.

(** X9. The key "loc:pos" that [format_state] prints for a cell is read
    back by the sort key of [format_goal] as the pair of the location
    and the position, for every location name without a colon and every
    position, negative ones included. *)
Theorem goal_sort_key_reads_cell_key loc (pos : Z) :
  no_colon loc →
  goal_sort_key (loc +:+ ":" +:+ pretty pos) = inr (loc, pos).
Proof.
  intros Hloc. unfold goal_sort_key.
  rewrite (split_colon_app _ _ Hloc), (pretty_Z_no_colon pos).
  by rewrite py_int_pretty.
Qed.

Lemma goal_sort_key_reads_cell_key_witness :
  goal_sort_key "shelf:-12" = inr ("shelf", -12).
Proof.
  apply (goal_sort_key_reads_cell_key "shelf" (-12)). reflexivity.
Defined.

(** ** The names of the frame files *)

(** The digits in the name of a frame file read back as its step. *)
Lemma parse_digits_fmt_02d n : parse_digits (fmt_02d n) 0 = Some (Z.of_nat n).
Proof.
  unfold fmt_02d. case_decide.
  - change ("0" +:+ pretty n) with (String "0" (pretty n)). simpl.
    change (pretty n) with (pretty (N.of_nat n)).
    rewrite parse_digits_pretty_N. f_equal. lia.
  - change (pretty n) with (pretty (N.of_nat n)).
    rewrite parse_digits_pretty_N. f_equal. lia.
Qed.

Lemma fmt_02d_below_100 :
  forallb (λ n,
    Nat.eqb (String.length (fmt_02d n)) 2
    && forallb (λ m, Bool.eqb (String.ltb (fmt_02d n) (fmt_02d m))
                              (Nat.ltb n m))
               (seq 0 100))
    (seq 0 100) = true.
Proof. vm_compute. reflexivity. Qed.

(** X10. The two-digit step number in the name of a frame file: distinct
    steps give distinct names and the digits read back as the step;
    below 100 steps the number has two characters and the names sort as
    the steps do, which step 100 ends: its name sorts before the name of
    step 11. *)
Theorem fmt_02d_names :
  (∀ n m : nat, fmt_02d n = fmt_02d m → n = m)
  ∧ (∀ n : nat, parse_digits (fmt_02d n) 0 = Some (Z.of_nat n))
  ∧ (∀ n : nat, (n < 100)%nat → String.length (fmt_02d n) = 2%nat)
  ∧ (∀ n m : nat, (n < 100)%nat → (m < 100)%nat →
       String.ltb (fmt_02d n) (fmt_02d m) = true ↔ (n < m)%nat)
  ∧ String.ltb (fmt_02d 100) (fmt_02d 11) = true.
Proof.
  pose proof fmt_02d_below_100 as Hall.
  rewrite List.forallb_forall in Hall.
  split; [|split; [|split; [|split]]].
  - intros n m Heq.
    pose proof (parse_digits_fmt_02d n) as Hn.
    rewrite Heq, parse_digits_fmt_02d in Hn.
    injection Hn as Hn. lia.
  - apply parse_digits_fmt_02d.
  - intros n Hn.
    pose proof (Hall n ltac:(apply List.in_seq; lia)) as Hn'.
    apply andb_prop in Hn' as [Hlen _]. by apply Nat.eqb_eq.
  - intros n m Hn Hm.
    pose proof (Hall n ltac:(apply List.in_seq; lia)) as Hn'.
    apply andb_prop in Hn' as [_ Hord].
    rewrite List.forallb_forall in Hord.
    specialize (Hord m ltac:(apply List.in_seq; lia)).
    apply Bool.eqb_prop in Hord. rewrite Hord. apply Nat.ltb_lt.
  - done.
Qed.

Lemma fmt_02d_names_witness :
  (7 = 7)%nat ∧ (String.ltb (fmt_02d 9) (fmt_02d 10) = true ↔ (9 < 10)%nat).
Proof.
  destruct fmt_02d_names as (Hinj & _ & _ & Hord & _). split.
  - apply Hinj. reflexivity.
  - apply Hord; lia.
Defined.

(** ** Sorting *)

Lemma insert_sorted_Permutation {A} (leb : A → A → bool) x l :
  insert_sorted leb x l ≡ₚ x :: l.
Proof.
  induction l as [|y l IH]; simpl; [done|].
  destruct (leb x y); [done|]. by rewrite IH, Permutation_swap.
Qed.

Lemma sorted_Permutation {A} (leb : A → A → bool) l : sorted leb l ≡ₚ l.
Proof.
  unfold sorted. induction l as [|x l IH]; simpl; [done|].
  by rewrite insert_sorted_Permutation, IH.
Qed.

Lemma insert_sorted_Sorted {A} (leb : A → A → bool) x l :
  (∀ a b, leb a b = false → leb b a = true) →
  Sorted (λ a b, leb a b = true) l →
  Sorted (λ a b, leb a b = true) (insert_sorted leb x l).
Proof.
  intros Htotal. induction 1 as [|y l Hsorted IH Hhd]; simpl.
  - by repeat constructor.
  - destruct (leb x y) eqn:Hxy.
    + by repeat constructor.
    + constructor; [done|].
      destruct Hhd as [|z l Hyz]; simpl.
      * constructor. by apply Htotal.
      * destruct (leb x z); constructor; [by apply Htotal|done].
Qed.

Lemma sorted_Sorted {A} (leb : A → A → bool) l :
  (∀ a b, leb a b = false → leb b a = true) →
  Sorted (λ a b, leb a b = true) (sorted leb l).
Proof.
  intros Htotal. unfold sorted. induction l as [|x l IH]; simpl.
  - constructor.
  - by apply insert_sorted_Sorted.
Qed.

Lemma Sorted_and_Forall {A} (R : relation A) (P : A → Prop) l :
  Sorted R l → Forall P l → Sorted (λ a b, R a b ∧ P a ∧ P b) l.
Proof.
  induction 1 as [|x l Hsorted IH Hhd]; intros HP; [constructor|].
  apply Forall_cons in HP as [Hx Hl].
  constructor; [by apply IH|].
  destruct Hhd as [|y l Hxy]; constructor.
  apply Forall_cons in Hl as [Hy _]. done.
Qed.

(** ** More on format_goal *)

Lemma mapM_result_first_error {A B} (f : A → result B) pre x post e :
  Forall (λ x, ∃ y, f x = inr y) pre → f x = inl e →
  mapM_result f (pre ++ x :: post) = inl e.
Proof.
  intros Hpre Hx. induction Hpre as [|z pre [y Hz] _ IH]; simpl.
  - by rewrite Hx.
  - by rewrite Hz, IH.
Qed.

Lemma sort_key_leb_true {A} (x y : string * Z * A) :
  sort_key_leb x y = true →
  String.ltb x.1.1 y.1.1 = true ∨ (x.1.1 = y.1.1 ∧ x.1.2 ≤ y.1.2).
Proof.
  destruct x as [[l1 n1] a1], y as [[l2 n2] a2]; simpl.
  intros [Hlt|[Heq Hle]%andb_prop]%orb_prop; [by left|right].
  split; [by apply String.eqb_eq | by apply Z.leb_le].
Qed.

Lemma sort_key_leb_total {A} (x y : string * Z * A) :
  sort_key_leb x y = false → sort_key_leb y x = true.
Proof.
  destruct x as [[l1 n1] a1], y as [[l2 n2] a2]; simpl.
  unfold String.ltb. rewrite (String.compare_antisym l2 l1).
  intros [Hlt Heq]%orb_false_elim.
  destruct (String.compare l1 l2) eqn:Hcmp; simpl; [|done|done].
  apply String.compare_eq_iff in Hcmp as ->.
  rewrite String.eqb_refl in *. simpl in *.
  apply Z.leb_le. apply Z.leb_gt in Heq. lia.
Qed.

Lemma goal_keyed ks : ∀ keyed,
  mapM_result (λ k, let? sk := goal_sort_key k in ok (sk, k)) ks = inr keyed →
  keyed.*2 = ks ∧ Forall (λ x, goal_sort_key x.2 = inr x.1) keyed.
Proof.
  induction ks as [|k ks IH]; intros keyed; simpl.
  - by intros [= <-].
  - destruct (goal_sort_key k) as [e|sk] eqn:Hsk; simpl; [done|].
    destruct (mapM_result _ ks) as [e|keyed'] eqn:Hrest; simpl; [done|].
    intros [= <-]. destruct (IH _ eq_refl) as [IH1 IH2].
    split; [by rewrite fmap_cons, IH1|]. by constructor.
Qed.

(** X11. [format_goal] returns exactly when every key of the goal reads
    "loc:n"; otherwise it raises what the first key, in the order of the
    dictionary, that does not read so raises: [IndexError] for a key
    without a colon, the [ValueError] of [int] for a key whose part
    after the colon is no number. *)
Theorem format_goal_raises goal_dict :
  ((∃ text, format_goal goal_dict = inr text)
   ↔ Forall (λ k, ∃ sk, goal_sort_key k = inr sk) (dict_keys goal_dict))
  ∧ (∀ pre k post e,
       dict_keys goal_dict = pre ++ k :: post →
       Forall (λ k, ∃ sk, goal_sort_key k = inr sk) pre →
       goal_sort_key k = inl e →
       format_goal goal_dict = inl e)
  ∧ (∀ k, no_colon k → goal_sort_key k = inl IndexError)
  ∧ (∀ loc rest e,
       no_colon loc → no_colon rest → py_int rest = inl e →
       goal_sort_key (loc +:+ ":" +:+ rest) = inl e).
Proof.
  split; [|split; [|split]].
  - unfold format_goal. split.
    + intros [text Htext].
      destruct (mapM_result _ (dict_keys goal_dict)) as [e|keyed] eqn:Hkeyed;
        [done|].
      destruct (goal_keyed _ _ Hkeyed) as [<- Hall].
      apply Forall_fmap. eapply Forall_impl; [exact Hall|].
      intros [sk k] Hk. by exists sk.
    + intros Hkeys.
      destruct (mapM_result_Forall
                  (λ k, let? sk := goal_sort_key k in ok (sk, k))
                  (dict_keys goal_dict)) as [keyed ->]; [|by eexists].
      eapply Forall_impl; [exact Hkeys|]. intros k [sk ->]. by eexists.
  - intros pre k post e Hkeys Hpre Hk. unfold format_goal.
    rewrite Hkeys.
    rewrite (mapM_result_first_error _ pre k post e); [done| |by rewrite Hk].
    eapply Forall_impl; [exact Hpre|]. intros k' [sk ->]. by eexists.
  - intros k Hk. unfold goal_sort_key. by rewrite Hk.
  - intros loc rest e Hloc Hrest Hint. unfold goal_sort_key.
    by rewrite (split_colon_app _ _ Hloc), Hrest, Hint.
Qed.

Lemma format_goal_raises_witness :
  format_goal [ ("a:1", "b"); ("c:x", "a"); ("b", "c") ]
  = inl (ValueError_int "x")
  ∧ goal_sort_key "b" = inl IndexError
  ∧ goal_sort_key "c:x" = inl (ValueError_int "x").
Proof.
  destruct (format_goal_raises [ ("a:1", "b"); ("c:x", "a"); ("b", "c") ])
    as (_ & Hfirst & Hindex & Hvalue).
  split; [|split].
  - apply (Hfirst ["a:1"] "c:x" ["b"]); [reflexivity| |reflexivity].
    repeat constructor. by exists ("a", 1).
  - apply Hindex. reflexivity.
  - apply (Hvalue "c" "x"); reflexivity.
Defined.

(** X12. When [format_goal] returns, the text is the entries of the goal
    joined by a comma, "key=value" each, every key of the dictionary
    once, in the order of their locations and, within a location, of the
    numbers after the colon. *)
Theorem format_goal_sorted_entries goal_dict text :
  format_goal goal_dict = inr text →
  ∃ keys,
    text = "  " +:+ join ", "
             ((λ k, k +:+ "=" +:+ default "" (dict_get goal_dict k)) <$> keys)
    ∧ keys ≡ₚ dict_keys goal_dict
    ∧ Sorted goal_key_le keys.
Proof.
  unfold format_goal.
  destruct (mapM_result _ (dict_keys goal_dict)) as [e|keyed] eqn:Hkeyed;
    [done|].
  simpl. intros [= <-]. eexists. split; [done|].
  destruct (goal_keyed _ _ Hkeyed) as [Hkeys Hall].
  split.
  - by rewrite sorted_Permutation, Hkeys.
  - eapply (Sorted_fmap snd
              (λ x y, sort_key_leb x y = true
                      ∧ goal_sort_key x.2 = inr x.1
                      ∧ goal_sort_key y.2 = inr y.1)).
    + intros [[l1 n1] k1] [[l2 n2] k2] (Hle & H1 & H2).
      apply sort_key_leb_true in Hle. simpl in *.
      by exists l1, n1, l2, n2.
    + apply (Sorted_and_Forall (λ x y, sort_key_leb x y = true)
               (λ x, goal_sort_key x.2 = inr x.1)).
      * apply sorted_Sorted. intros a b. apply sort_key_leb_total.
      * by rewrite sorted_Permutation.
Qed.

Lemma format_goal_sorted_entries_witness :
  ∃ keys,
    "  a:2=empty, a:10=c, c:2=b"
    = "  " +:+ join ", "
        ((λ k, k +:+ "="
                 +:+ default ""
                       (dict_get [ ("c:2", "b"); ("a:10", "c");
                                   ("a:2", "empty") ] k)) <$> keys)
    ∧ keys ≡ₚ ["c:2"; "a:10"; "a:2"]
    ∧ Sorted goal_key_le keys.
Proof.
  apply (format_goal_sorted_entries
           [ ("c:2", "b"); ("a:10", "c"); ("a:2", "empty") ]).
  reflexivity.
Defined.

(** ** More on format_state *)

Lemma dict_get_None_keys {K V} `{EqDecision K} (d : dict K V) k :
  dict_get d k = None ↔ k ∉ dict_keys d.
Proof.
  unfold dict_keys. induction d as [|[k' v] d IH]; simpl.
  - split; [intros _; apply not_elem_of_nil | done].
  - rewrite not_elem_of_cons. case_decide as Hk.
    + split; [done|]. intros [Hne _]. by destruct Hne.
    + rewrite IH. split; [by split | by intros [_ ?]].
Qed.

Lemma dict_get_Some_values {K V} `{EqDecision K} (d : dict K V) k v :
  dict_get d k = Some v → v ∈ dict_values d.
Proof.
  unfold dict_values. induction d as [|[k' v'] d IH]; simpl; [done|].
  case_decide.
  - intros [= ->]. by left.
  - intros Hget. right. by apply IH.
Qed.

(** Two dictionaries with the same entries have the same keys, up to
    their order. *)
Lemma dict_keys_Permutation {K V} `{EqDecision K} (d1 d2 : dict K V) :
  is_dict d1 → is_dict d2 →
  (∀ k, is_Some (dict_get d1 k) ↔ is_Some (dict_get d2 k)) →
  dict_keys d1 ≡ₚ dict_keys d2.
Proof.
  intros Hd1 Hd2 Hsame. apply NoDup_Permutation; [done|done|].
  intros k. specialize (Hsame k).
  rewrite <- !not_eq_None_Some, !dict_get_None_keys in Hsame.
  destruct (decide (k ∈ dict_keys d1)), (decide (k ∈ dict_keys d2)); tauto.
Qed.

Lemma sorted_strings_unique (l1 l2 : list string) :
  l1 ≡ₚ l2 → sorted String.leb l1 = sorted String.leb l2.
Proof.
  intros Hperm.
  assert (∀ l, Sorted String.le (sorted String.leb l)) as Hsorted.
  { intros l. rewrite <- (list_fmap_id (sorted String.leb l)).
    eapply (Sorted_fmap id (λ a b, String.leb a b = true)).
    - intros x y Hxy. by apply Is_true_true.
    - apply sorted_Sorted. intros a b Hab.
      destruct (String.leb_total a b); congruence. }
  apply (Sorted_unique String.le); [done|done|].
  by rewrite !sorted_Permutation.
Qed.

Lemma sorted_integers_unique (l1 l2 : list Z) :
  l1 ≡ₚ l2 → sorted Z.leb l1 = sorted Z.leb l2.
Proof.
  intros Hperm.
  assert (∀ l, Sorted Z.le (sorted Z.leb l)) as Hsorted.
  { intros l. rewrite <- (list_fmap_id (sorted Z.leb l)).
    eapply (Sorted_fmap id (λ a b, Z.leb a b = true)).
    - intros x y Hxy. by apply Z.leb_le.
    - apply sorted_Sorted. intros a b Hab.
      apply Z.leb_le. apply Z.leb_gt in Hab. lia. }
  apply (Sorted_unique Z.le); [done|done|].
  by rewrite !sorted_Permutation.
Qed.

(** X13. The text of a state depends on what the slots hold, not on the
    order in which the locations and the positions were inserted: two
    states that read the same at every location and position have the
    same text. *)
Theorem format_state_insertion_order slots1 slots2 :
  is_state slots1 → is_state slots2 →
  (∀ loc pos, slots_lookup slots1 loc pos = slots_lookup slots2 loc pos) →
  format_state slots1 = format_state slots2.
Proof.
  intros [Hd1 Hi1] [Hd2 Hi2] Hsame.
  assert (∀ loc, match dict_get slots1 loc, dict_get slots2 loc with
                 | Some i1, Some i2 => ∀ pos, dict_get i1 pos = dict_get i2 pos
                 | None, None => True
                 | _, _ => False
                 end) as Hinner.
  { intros loc.
    pose proof (λ pos, Hsame loc pos) as Hloc.
    unfold slots_lookup, getitem in Hloc.
    destruct (dict_get slots1 loc) as [i1|], (dict_get slots2 loc) as [i2|];
      simpl in Hloc; [|specialize (Hloc 0)..|done].
    - intros pos. specialize (Hloc pos).
      destruct (dict_get i1 pos), (dict_get i2 pos);
        unfold ok, raise in Hloc; congruence.
    - destruct (dict_get i1 0); unfold ok, raise in Hloc; congruence.
    - destruct (dict_get i2 0); unfold ok, raise in Hloc; congruence. }
  unfold format_state. do 2 f_equal.
  apply list_bind_ext.
  - intros loc. specialize (Hinner loc).
    destruct (dict_get slots1 loc) as [i1|] eqn:H1,
             (dict_get slots2 loc) as [i2|] eqn:H2; try done.
    simpl. apply list_bind_ext.
    + intros pos. by rewrite Hinner.
    + apply sorted_integers_unique, dict_keys_Permutation.
      * rewrite Forall_forall in Hi1.
        by eapply Hi1, dict_get_Some_values.
      * rewrite Forall_forall in Hi2.
        by eapply Hi2, dict_get_Some_values.
      * intros pos. by rewrite Hinner.
  - apply sorted_strings_unique, dict_keys_Permutation; [done|done|].
    intros loc. specialize (Hinner loc).
    destruct (dict_get slots1 loc), (dict_get slots2 loc); try done;
      split; by intros [? ?].
Qed.

(** The keys of a dictionary that is written out are distinct. *)
Ltac is_dict_literal :=
  unfold is_dict; apply NoDup_ListNoDup; repeat constructor; simpl;
  intuition discriminate.

Lemma format_state_insertion_order_witness :
  format_state [ ("b", [ (2, None); (1, Some "c") ]);
                 ("a", [ (1, Some "a"); (2, Some "b") ]) ]
  = format_state [ ("a", [ (2, Some "b"); (1, Some "a") ]);
                   ("b", [ (1, Some "c"); (2, None) ]) ].
Proof.
  apply format_state_insertion_order.
  - split; [by is_dict_literal|].
    apply Forall_cons_2; [by is_dict_literal|].
    apply Forall_cons_2; [by is_dict_literal|]. apply Forall_nil_2.
  - split; [by is_dict_literal|].
    apply Forall_cons_2; [by is_dict_literal|].
    apply Forall_cons_2; [by is_dict_literal|]. apply Forall_nil_2.
  - intros loc pos. unfold slots_lookup, getitem; simpl.
    repeat (case_decide; simplify_eq; simpl); done.
Defined.

(** ** More on draw_grid *)

(** What [render] copies into the frame, whenever it returns. *)
Lemma render_fields slots step title out_dir current_move fr :
  render slots step title out_dir current_move = inr fr →
  fr_step fr = step ∧ fr_out_dir fr = out_dir ∧ fr_title fr = title
  ∧ fr_file fr = "step_" +:+ fmt_02d step +:+ ".png".
Proof.
  unfold render.
  destruct (dict_values slots) as [|first rest]; simpl; [done|].
  destruct (mapM_result _ _) as [e|columns]; simpl; [done|].
  destruct (draw_arrow _ current_move) as [e|arrow]; simpl; [done|].
  by intros [= <-].
Qed.

Lemma index_of_None x l : index_of x l = None ↔ x ∉ l.
Proof.
  induction l as [|y l IH]; simpl.
  - split; [intros _; apply not_elem_of_nil | done].
  - rewrite not_elem_of_cons. case_decide as Hy.
    + split; [done|]. intros [Hne _]. by destruct Hne.
    + rewrite fmap_None, IH. split; [by split | by intros [_ ?]].
Qed.

Lemma index_of_elem_of x l : x ∈ l → ∃ i, index_of x l = Some i.
Proof.
  intros Hin. destruct (index_of x l) as [i|] eqn:Hi; [by eexists|].
  by apply index_of_None in Hi.
Qed.

(** The frame of a state that is written out on the grid of a scenario. *)
Lemma render_grid_explicit a1 a2 a3 b1 b2 b3 c1 c2 c3 step title out_dir
    current_move arrow :
  draw_arrow ["a"; "b"; "c"] current_move = inr arrow →
  render [ ("a", [ (1, a1); (2, a2); (3, a3) ]);
           ("b", [ (1, b1); (2, b2); (3, b3) ]);
           ("c", [ (1, c1); (2, c2); (3, c3) ]) ]
         step title out_dir current_move
  = inr {| fr_out_dir := out_dir;
           fr_file := "step_" +:+ fmt_02d step +:+ ".png";
           fr_step := step;
           fr_title := title;
           fr_shapes :=
             concat
               [ concat [ cell_shapes 0 0 a1; cell_shapes 0 1 a2;
                          cell_shapes 0 2 a3 ] ++ [LocLabel 0 "a"];
                 concat [ cell_shapes 1 0 b1; cell_shapes 1 1 b2;
                          cell_shapes 1 2 b3 ] ++ [LocLabel 1 "b"];
                 concat [ cell_shapes 2 0 c1; cell_shapes 2 1 c2;
                          cell_shapes 2 2 c3 ] ++ [LocLabel 2 "c"] ]
             ++ [ PosLabel 0 1; PosLabel 1 2; PosLabel 2 3 ]
             ++ [ DistLabel 0 (Some 2); DistTick 0;
                  DistLabel 1 (Some 1); DistTick 1 ]
             ++ arrow;
           fr_ncols := 3;
           fr_nrows := 3 |}.
Proof.
  intros Harrow. unfold render.
  change (sorted String.leb (dict_keys _)) with ["a"; "b"; "c"].
  rewrite Harrow. reflexivity.
Qed.

Lemma cell_texts_cell_shapes xi yi v :
  omap (λ sh, match sh with
              | CellText xi yi b => Some (xi, yi, b)
              | _ => None
              end) (cell_shapes xi yi v)
  = match v with Some b => [(xi, yi, b)] | None => [] end.
Proof. by destruct v. Qed.

Lemma cells_cell_shapes xi yi v :
  omap (λ sh, match sh with Cell xi yi => Some (xi, yi) | _ => None end)
       (cell_shapes xi yi v) = [(xi, yi)].
Proof. by destruct v. Qed.

Lemma arrows_cell_shapes xi yi v :
  omap (λ sh, match sh with Arrow x1 x2 => Some (x1, x2) | _ => None end)
       (cell_shapes xi yi v) = [].
Proof. by destruct v. Qed.

(** X14. On the grid of a scenario [render] returns a frame with the nine
    cells, column by column, and with one block label for every occupied
    slot, drawn in the cell of that slot, and no other label; the frame
    has an arrow exactly when a move is given, from the column of the
    source to the column of the destination. *)
Theorem render_shows_state slots step title out_dir current_move :
  grid slots →
  (∀ act, current_move = Some act →
     act_sl act ∈ dict_keys slots ∧ act_dl act ∈ dict_keys slots) →
  ∃ fr,
    render slots step title out_dir current_move = inr fr
    ∧ cell_texts fr = occupied_cells slots
    ∧ cells fr = [ (0, 0); (0, 1); (0, 2); (1, 0); (1, 1); (1, 2);
                   (2, 0); (2, 1); (2, 2) ]%nat
    ∧ arrows fr
      = match current_move with
        | Some act =>
            [ (default 0%nat (index_of (act_sl act) ["a"; "b"; "c"]),
               default 0%nat (index_of (act_dl act) ["a"; "b"; "c"])) ]
        | None => []
        end.
Proof.
  intros Hgrid Hmove.
  destruct (grid_explicit _ Hgrid)
    as (a1 & a2 & a3 & b1 & b2 & b3 & c1 & c2 & c3 & ->).
  assert (∃ arrow,
            draw_arrow ["a"; "b"; "c"] current_move = inr arrow
            ∧ omap (λ sh, match sh with
                          | CellText xi yi b => Some (xi, yi, b)
                          | _ => None
                          end) arrow = []
            ∧ omap (λ sh, match sh with
                          | Cell xi yi => Some (xi, yi)
                          | _ => None
                          end) arrow = []
            ∧ omap (λ sh, match sh with
                          | Arrow x1 x2 => Some (x1, x2)
                          | _ => None
                          end) arrow
              = match current_move with
                | Some act =>
                    [ (default 0%nat (index_of (act_sl act) ["a"; "b"; "c"]),
                       default 0%nat (index_of (act_dl act) ["a"; "b"; "c"])) ]
                | None => []
                end) as (arrow & Harrow & Ha1 & Ha2 & Ha3).
  { destruct current_move as [[tag sl sp dl dp block]|]; [|by exists []].
    destruct (Hmove _ eq_refl) as [Hsl Hdl]; simpl in Hsl, Hdl.
    apply index_of_elem_of in Hsl as [x1 Hx1].
    apply index_of_elem_of in Hdl as [x2 Hx2].
    eexists. unfold draw_arrow, list_index. act_fields.
    rewrite Hx1, Hx2. simpl. done. }
  eexists. split; [by apply render_grid_explicit|].
  unfold cell_texts, cells, arrows. cbn [fr_shapes concat].
  rewrite !omap_app, !cell_texts_cell_shapes, !cells_cell_shapes,
    !arrows_cell_shapes, Ha1, Ha2, Ha3.
  split; [|split]; [|done|done].
  unfold occupied_cells, slots_lookup, getitem. simpl.
  by rewrite !app_nil_r.
Qed.

Lemma render_shows_state_witness :
  ∃ fr,
    render [ ("a", [ (1, Some "a"); (2, None); (3, None) ]);
             ("b", [ (1, Some "c"); (2, None); (3, None) ]);
             ("c", [ (1, Some "b"); (2, None); (3, None) ]) ]
           1 "s1" "viz_s1" (Some (mk_action "move" "a" 2 "c" 1 "b")) = inr fr
    ∧ cell_texts fr = [ (0, 0, "a"); (1, 0, "c"); (2, 0, "b") ]%nat
    ∧ arrows fr = [ (0, 2) ]%nat.
Proof.
  destruct (render_shows_state
              [ ("a", [ (1, Some "a"); (2, None); (3, None) ]);
                ("b", [ (1, Some "c"); (2, None); (3, None) ]);
                ("c", [ (1, Some "b"); (2, None); (3, None) ]) ]
              1 "s1" "viz_s1" (Some (mk_action "move" "a" 2 "c" 1 "b")))
    as (fr & Hfr & Htexts & _ & Harrows).
  - split; [reflexivity|].
    intros loc [->|[->| ->]]%elem_of_three; reflexivity.
  - intros act [= <-]. split; apply elem_of_three; auto.
  - exists fr. split; [exact Hfr|]. split; [exact Htexts | exact Harrows].
Defined.

Lemma render_grid_arrow_raises a1 a2 a3 b1 b2 b3 c1 c2 c3 step title out_dir
    current_move e :
  draw_arrow ["a"; "b"; "c"] current_move = inl e →
  render [ ("a", [ (1, a1); (2, a2); (3, a3) ]);
           ("b", [ (1, b1); (2, b2); (3, b3) ]);
           ("c", [ (1, c1); (2, c2); (3, c3) ]) ]
         step title out_dir current_move = inl e.
Proof.
  intros Harrow. unfold render.
  change (sorted String.leb (dict_keys _)) with ["a"; "b"; "c"].
  rewrite Harrow. reflexivity.
Qed.

(** X15. The two ways in which [render] fails on states that the replay
    never reaches: a state without any location raises [StopIteration],
    and on the grid of a scenario a move that names a location outside
    the grid raises the [ValueError] of [list.index], for the source
    before the destination. *)
Theorem render_raises step title out_dir :
  (∀ current_move,
     render [] step title out_dir current_move = inl StopIteration)
  ∧ (∀ slots act,
       grid slots → act_sl act ∉ dict_keys slots →
       render slots step title out_dir (Some act)
       = inl (ValueError_not_in_list (act_sl act)))
  ∧ (∀ slots act,
       grid slots → act_sl act ∈ dict_keys slots →
       act_dl act ∉ dict_keys slots →
       render slots step title out_dir (Some act)
       = inl (ValueError_not_in_list (act_dl act))).
Proof.
  split; [done|]. split.
  - intros slots [tag sl sp dl dp block] Hgrid Hsl; act_fields.
    destruct (grid_explicit _ Hgrid)
      as (a1 & a2 & a3 & b1 & b2 & b3 & c1 & c2 & c3 & ->).
    apply render_grid_arrow_raises. unfold draw_arrow, list_index.
    apply index_of_None in Hsl.
    change (dict_keys _) with ["a"; "b"; "c"] in Hsl. by rewrite Hsl.
  - intros slots [tag sl sp dl dp block] Hgrid Hsl Hdl; act_fields.
    destruct (grid_explicit _ Hgrid)
      as (a1 & a2 & a3 & b1 & b2 & b3 & c1 & c2 & c3 & ->).
    apply render_grid_arrow_raises. unfold draw_arrow, list_index.
    apply index_of_elem_of in Hsl as [x1 Hx1].
    apply index_of_None in Hdl.
    change (dict_keys _) with ["a"; "b"; "c"] in Hx1, Hdl.
    by rewrite Hx1, Hdl.
Qed.

Lemma render_raises_witness :
  render [ ("a", [ (1, Some "a"); (2, Some "b"); (3, None) ]);
           ("b", [ (1, Some "c"); (2, None); (3, None) ]);
           ("c", [ (1, None); (2, None); (3, None) ]) ]
         1 "s1" "viz_s1" (Some (mk_action "move" "d" 1 "a" 3 "a"))
  = inl (ValueError_not_in_list "d")
  ∧ render [ ("a", [ (1, Some "a"); (2, Some "b"); (3, None) ]);
             ("b", [ (1, Some "c"); (2, None); (3, None) ]);
             ("c", [ (1, None); (2, None); (3, None) ]) ]
           1 "s1" "viz_s1" (Some (mk_action "move" "a" 1 "e" 3 "a"))
    = inl (ValueError_not_in_list "e").
Proof.
  destruct (render_raises 1 "s1" "viz_s1") as (_ & Hsl & Hdl).
  assert (grid [ ("a", [ (1, Some "a"); (2, Some "b"); (3, None) ]);
                 ("b", [ (1, Some "c"); (2, None); (3, None) ]);
                 ("c", [ (1, None); (2, None); (3, None) ]) ]) as Hgrid.
  { split; [reflexivity|].
    intros loc [->|[->| ->]]%elem_of_three; reflexivity. }
  split.
  - apply (Hsl _ (mk_action "move" "d" 1 "a" 3 "a") Hgrid).
    intros [?|[?|?]]%elem_of_three; discriminate.
  - apply (Hdl _ (mk_action "move" "a" 1 "e" 3 "a") Hgrid).
    + apply elem_of_three. auto.
    + intros [?|[?|?]]%elem_of_three; discriminate.
Defined.

(** ** The course of a run *)

Lemma runs_mbind_raise {A B} (m : IO A) (k : A → IO B) e evs :
  runs m (inl e) evs → runs (mbind m k) (inl e) evs.
Proof. intros Hm out. unfold mbind. by rewrite Hm. Qed.

Section course.
Variable run_prolog : string → string → option Z → result solver_result.

(** The loop runs as [replay_outcome] says. *)
Lemma replay_outcome_runs title out_dir plan : ∀ i slots rc,
  ∃ r evs,
    runs (replay title out_dir i plan slots rc) r evs
    ∧ replay_outcome title out_dir i plan slots rc r evs.
Proof.
  induction plan as [|act plan IH]; intros i slots rc.
  - exists (inr (slots, rc)), []. split; [apply runs_mret|constructor].
  - cbn [replay].
    destruct (move_cost act) as [e|[c br]] eqn:Hcost.
    { exists (inl e), []. split; [|by constructor].
      apply runs_mbind_raise, runs_mlift. }
    destruct (apply_move slots act) as [[e|[]] slots'] eqn:Hmove.
    { eexists (inl e), _. split; [|by econstructor].
      eapply runs_eq.
      - eapply runs_mbind; [apply runs_mlift|]. cbv beta iota.
        eapply runs_mbind; [apply runs_print|].
        eapply runs_mbind; [apply runs_print|].
        apply runs_mbind_raise. intros out. by rewrite app_nil_r.
      - done. }
    destruct (render slots' i title out_dir (Some act)) as [e|fr] eqn:Hfr.
    { eexists (inl e), _. split; [|by econstructor].
      eapply runs_eq.
      - eapply runs_mbind; [apply runs_mlift|]. cbv beta iota.
        eapply runs_mbind; [apply runs_print|].
        eapply runs_mbind; [apply runs_print|].
        eapply (runs_mbind _ _ slots' []).
        { intros out. by rewrite app_nil_r. }
        eapply runs_mbind; [apply runs_print|].
        eapply runs_mbind; [apply runs_print|].
        apply runs_mbind_raise. unfold draw_grid.
        apply runs_mbind_raise. rewrite Hfr. apply runs_mlift.
      - done. }
    destruct (IH (S i) slots' (rc + c)) as (r & evs & Hruns & Hout).
    eexists r, _. split; [|by econstructor].
    eapply runs_eq.
    + eapply runs_mbind; [apply runs_mlift|]. cbv beta iota.
      eapply runs_mbind; [apply runs_print|].
      eapply runs_mbind; [apply runs_print|].
      eapply (runs_mbind _ _ slots' []).
      { intros out. by rewrite app_nil_r. }
      eapply runs_mbind; [apply runs_print|].
      eapply runs_mbind; [apply runs_print|].
      eapply runs_mbind.
      { unfold draw_grid. eapply runs_mbind; [rewrite Hfr; apply runs_mlift|].
        apply runs_emit. }
      apply Hruns.
    + done.
Qed.

(** The lines about the goal, when the goal can be printed. *)
Lemma runs_goal_lines res :
  goal_printable res →
  runs (if decide (default [] (res_goal res) ≠ []) then
          print L_goal_state ;;!
          let! text := mlift (format_goal (default [] (res_goal res))) in
          print (L_formatted text)
        else mret tt) (inr tt) (goal_lines res).
Proof.
  intros [text Htext]%format_goal_printable. unfold goal_lines.
  case_decide; [|apply runs_mret]. rewrite Htext.
  eapply (runs_mbind _ _ _ [_] _ [_]); [apply runs_print|].
  eapply (runs_mbind _ _ _ [] _ [_]); [apply runs_mlift|].
  apply runs_print.
Qed.

Lemma goal_printable_dec res :
  goal_printable res
  ∨ (default [] (res_goal res) ≠ []
     ∧ ∃ e, format_goal (default [] (res_goal res)) = inl e).
Proof.
  destruct (format_goal (default [] (res_goal res))) as [e|text] eqn:Hgoal.
  - right. split; [|by eexists]. by intros Hnil; rewrite Hnil in Hgoal.
  - left. unfold goal_printable.
    unfold format_goal in Hgoal.
    destruct (mapM_result _ (dict_keys _)) as [e|keyed] eqn:Hkeyed; [done|].
    destruct (goal_keyed _ _ Hkeyed) as [<- Hall].
    apply Forall_fmap. eapply Forall_impl; [exact Hall|].
    intros [sk k] Hk. by exists sk.
Qed.

(** A run goes as [visualize_outcome] says. *)
Lemma visualize_outcome_runs pl_file sid budget :
  ∃ r evs,
    runs (visualize run_prolog pl_file sid budget) r evs
    ∧ visualize_outcome sid (run_prolog pl_file sid budget) r evs.
Proof.
  unfold visualize.
  destruct (run_prolog pl_file sid budget) as [e|res] eqn:Hres.
  { exists (inl e), []. split; [|constructor].
    apply runs_mbind_raise, runs_mlift. }
  destruct (goal_printable_dec res) as [Hgoal|[Hne [e Hbad]]]; cycle 1.
  { eexists (inl e), _. split; [|by econstructor].
    eapply runs_eq.
    - eapply runs_mbind; [apply runs_mlift|]. cbv beta zeta.
      eapply runs_mbind; [apply runs_print|].
      eapply runs_mbind; [apply runs_print_weights|].
      apply runs_mbind_raise. rewrite decide_True by done.
      eapply runs_mbind; [apply runs_print|].
      apply runs_mbind_raise. rewrite Hbad. apply runs_mlift.
    - unfold goal_lines. by rewrite decide_True, Hbad. }
  pose proof (runs_goal_lines res Hgoal) as Hgoal_runs.
  destruct (default false (res_ok res)) eqn:Hok; cycle 1.
  { eexists (inr tt), _. split; [|by econstructor].
    eapply runs_eq.
    - eapply runs_mbind; [apply runs_mlift|]. cbv beta zeta. rewrite Hok.
      eapply runs_mbind; [apply runs_print|].
      eapply runs_mbind; [apply runs_print_weights|].
      eapply runs_mbind; [apply Hgoal_runs|].
      simpl. apply runs_print.
    - done. }
  destruct (res_plan res) as [plan|] eqn:Hplan; cycle 1.
  { eexists (inl (KeyError (KStr "plan"))), _.
    split; [|econstructor; [done|done|by left]].
    eapply runs_eq.
    - eapply runs_mbind; [apply runs_mlift|]. cbv beta zeta.
      rewrite Hok, Hplan.
      eapply runs_mbind; [apply runs_print|].
      eapply runs_mbind; [apply runs_print_weights|].
      eapply runs_mbind; [apply Hgoal_runs|].
      simpl. apply runs_mbind_raise, runs_mlift.
    - simpl. by rewrite <- ?(assoc app), ?app_nil_r. }
  destruct (res_cost res) as [c|] eqn:Hcost; cycle 1.
  { eexists (inl (KeyError (KStr "cost"))), _.
    split; [|econstructor; [done|done|right; left; rewrite Hplan; eauto]].
    eapply runs_eq.
    - eapply runs_mbind; [apply runs_mlift|]. cbv beta zeta.
      rewrite Hok, Hplan, Hcost.
      eapply runs_mbind; [apply runs_print|].
      eapply runs_mbind; [apply runs_print_weights|].
      eapply runs_mbind; [apply Hgoal_runs|].
      simpl. eapply runs_mbind; [apply runs_mlift|].
      apply runs_mbind_raise, runs_mlift.
    - simpl. by rewrite <- ?(assoc app), ?app_nil_r. }
  destruct (res_budget res) as [b|] eqn:Hbudget; cycle 1.
  { eexists (inl (KeyError (KStr "budget"))), _.
    split; [|econstructor;
              [done|done|right; right; rewrite Hplan, Hcost; eauto]].
    eapply runs_eq.
    - eapply runs_mbind; [apply runs_mlift|]. cbv beta zeta.
      rewrite Hok, Hplan, Hcost, Hbudget.
      eapply runs_mbind; [apply runs_print|].
      eapply runs_mbind; [apply runs_print_weights|].
      eapply runs_mbind; [apply Hgoal_runs|].
      simpl. eapply runs_mbind; [apply runs_mlift|].
      eapply runs_mbind; [apply runs_mlift|].
      apply runs_mbind_raise, runs_mlift.
    - simpl. by rewrite <- ?(assoc app), ?app_nil_r. }
  destruct (start_slots sid) as [e|slots] eqn:Hstart.
  { eexists (inl e), _. split; [|by econstructor].
    eapply runs_eq.
    - eapply runs_mbind; [apply runs_mlift|]. cbv beta zeta.
      rewrite Hok, Hplan, Hcost, Hbudget.
      eapply runs_mbind; [apply runs_print|].
      eapply runs_mbind; [apply runs_print_weights|].
      eapply runs_mbind; [apply Hgoal_runs|].
      simpl. eapply runs_mbind; [apply runs_mlift|].
      eapply runs_mbind; [apply runs_mlift|].
      eapply runs_mbind; [apply runs_mlift|].
      eapply runs_mbind; [apply runs_print|].
      eapply runs_mbind; [apply runs_print|].
      eapply runs_mbind; [apply runs_print|].
      apply runs_mbind_raise, runs_mlift.
    - simpl. by rewrite <- ?(assoc app), ?app_nil_r. }
  pose proof (grid_start_slots _ _ Hstart) as Hgrid.
  destruct (render_grid slots 0%nat (frame_title sid c b) ("viz_" +:+ sid)
              None Hgrid) as (fr0 & Hfr0 & _); [done|].
  destruct (replay_outcome_runs (frame_title sid c b) ("viz_" +:+ sid) plan
              1%nat slots 0) as (r & evs & Hreplay & Hout).
  destruct r as [e|[final total]].
  - exists (inl e). eexists. split; [|by eapply Run_replay_raises].
    eapply runs_eq.
    + eapply runs_mbind; [apply runs_mlift|]. cbv beta zeta.
      rewrite Hok, Hplan, Hcost, Hbudget.
      eapply runs_mbind; [apply runs_print|].
      eapply runs_mbind; [apply runs_print_weights|].
      eapply runs_mbind; [apply Hgoal_runs|].
      simpl. eapply runs_mbind; [apply runs_mlift|].
      eapply runs_mbind; [apply runs_mlift|].
      eapply runs_mbind; [apply runs_mlift|].
      eapply runs_mbind; [apply runs_print|].
      eapply runs_mbind; [apply runs_print|].
      eapply runs_mbind; [apply runs_print|].
      eapply runs_mbind; [apply runs_mlift|].
      eapply runs_mbind; [apply runs_print|].
      eapply runs_mbind; [apply runs_print|].
      eapply runs_mbind.
      { unfold draw_grid, frame_title in *.
        eapply runs_mbind; [rewrite Hfr0; apply runs_mlift|].
        apply runs_emit. }
      apply runs_mbind_raise. apply Hreplay.
    + simpl. by rewrite <- ?(assoc app), ?app_nil_r.
  - exists (inr tt). eexists. split; [|by eapply Run_replayed].
    eapply runs_eq.
    + eapply runs_mbind; [apply runs_mlift|]. cbv beta zeta.
      rewrite Hok, Hplan, Hcost, Hbudget.
      eapply runs_mbind; [apply runs_print|].
      eapply runs_mbind; [apply runs_print_weights|].
      eapply runs_mbind; [apply Hgoal_runs|].
      simpl. eapply runs_mbind; [apply runs_mlift|].
      eapply runs_mbind; [apply runs_mlift|].
      eapply runs_mbind; [apply runs_mlift|].
      eapply runs_mbind; [apply runs_print|].
      eapply runs_mbind; [apply runs_print|].
      eapply runs_mbind; [apply runs_print|].
      eapply runs_mbind; [apply runs_mlift|].
      eapply runs_mbind; [apply runs_print|].
      eapply runs_mbind; [apply runs_print|].
      eapply runs_mbind.
      { unfold draw_grid, frame_title in *.
        eapply runs_mbind; [rewrite Hfr0; apply runs_mlift|].
        apply runs_emit. }
      eapply runs_mbind; [apply Hreplay|].
      eapply runs_mbind; apply runs_print.
    + simpl. by rewrite <- ?(assoc app), ?app_nil_r.
Qed.
End course.

(** ** What every run saves *)

Lemma frames_goal_lines res : frames (goal_lines res) = [].
Proof.
  unfold goal_lines. case_decide; [|done].
  by destruct (format_goal _).
Qed.

Lemma render_frame_of slots step title out_dir current_move fr :
  render slots step title out_dir current_move = inr fr →
  frame_of out_dir title fr ∧ fr_step fr = step.
Proof.
  intros (Hstep & Hdir & Htitle & Hfile)%render_fields.
  unfold frame_of. by rewrite Hstep.
Qed.

(** The frames of the loop are numbered from its first step on. *)
Lemma replay_outcome_frames title out_dir i plan slots rc r evs :
  replay_outcome title out_dir i plan slots rc r evs →
  fr_step <$> frames evs = seq i (length (frames evs))
  ∧ Forall (frame_of out_dir title) (frames evs)
  ∧ printed_totals evs = []
  ∧ (length (frames evs) ≤ length plan)%nat.
Proof.
  induction 1 as [ | | | |i act plan slots rc c br slots' fr r evs
                          Hcost Hmove Hfr Hrest (IH1 & IH2 & IH3 & IH4)];
    try (repeat split; [done..|simpl; lia]).
  destruct (render_frame_of _ _ _ _ _ _ Hfr) as [Hof Hstep].
  change (frames (_ ++ evs)) with (fr :: frames evs).
  change (printed_totals (_ ++ evs)) with (printed_totals evs).
  rewrite fmap_cons, !length_cons, IH1, Hstep.
  split; [done|]. split; [by constructor|]. split; [done|lia].
Qed.

Lemma string_app_length s1 s2 :
  String.length (s1 +:+ s2) = (String.length s1 + String.length s2)%nat.
Proof. induction s1 as [|c s1 IH]; simpl; [done|]. by rewrite <- IH. Qed.

Lemma string_app_inj_r s1 s2 s : s1 +:+ s = s2 +:+ s → s1 = s2.
Proof.
  intros Heq.
  assert (String.length s1 = String.length s2) as Hlen.
  { apply (f_equal String.length) in Heq.
    rewrite !string_app_length in Heq. lia. }
  revert s2 Heq Hlen.
  induction s1 as [|c s1 IH]; intros [|c2 s2] Heq Hlen; try done.
  injection Heq as -> Heq. f_equal. apply IH; [done|].
  simpl in Hlen. lia.
Qed.

Lemma step_path_inj out_dir : Inj (=) (=) (step_path out_dir).
Proof.
  intros n m [= Heq].
  apply (string_app_inj_r (fmt_02d n) (fmt_02d m)) in Heq.
  pose proof (parse_digits_fmt_02d n) as Hn.
  rewrite Heq, parse_digits_fmt_02d in Hn. injection Hn as Hn. lia.
Qed.

Lemma frame_path_step_path out_dir title frs :
  Forall (frame_of out_dir title) frs →
  frame_path <$> frs = step_path out_dir <$> (fr_step <$> frs).
Proof.
  induction 1 as [|fr frs (Hdir & _ & Hfile) _ IH]; [done|].
  rewrite !fmap_cons, IH. f_equal.
  unfold frame_path, step_path. by rewrite Hdir, Hfile.
Qed.

Section frames.
Variable run_prolog : string → string → option Z → result solver_result.

(** The frames of a run, whatever the planner answers: those of the
    loop after the frame of step 0, or none. *)
Lemma visualize_outcome_frames sid answer r evs :
  visualize_outcome sid answer r evs →
  frames evs = []
  ∨ ∃ res c b fr0 evs',
      answer = inr res ∧ res_cost res = Some c ∧ res_budget res = Some b
      ∧ is_Some (res_plan res) ∧ default false (res_ok res) = true
      ∧ is_Some (match start_slots sid with
                 | inr slots => Some slots
                 | inl _ => None
                 end)
      ∧ frames evs = fr0 :: frames evs'
      ∧ frame_of ("viz_" +:+ sid) (frame_title sid c b) fr0
      ∧ fr_step fr0 = 0%nat
      ∧ fr_step <$> frames evs' = seq 1 (length (frames evs'))
      ∧ Forall (frame_of ("viz_" +:+ sid) (frame_title sid c b))
               (frames evs').
Proof.
  destruct 1 as [e|res e Hne Hbad|res Hgoal Hok|res name Hgoal Hok Hname
                 |res plan c b e Hgoal Hok Hplan Hcost Hbudget Hstart
                 |res plan c b slots fr0 e evs Hgoal Hok Hplan Hcost Hbudget
                    Hstart Hfr0 Hreplay
                 |res plan c b slots fr0 final total evs Hgoal Hok Hplan
                    Hcost Hbudget Hstart Hfr0 Hreplay];
    rewrite ?frames_app, ?frames_goal_lines; try (by left).
  - right. destruct (replay_outcome_frames _ _ _ _ _ _ _ _ Hreplay)
      as (Hsteps & Hall & _).
    destruct (render_frame_of _ _ _ _ _ _ Hfr0) as [Hof Hstep].
    exists res, c, b, fr0, evs. rewrite Hstart, Hplan. eauto 20.
  - right. destruct (replay_outcome_frames _ _ _ _ _ _ _ _ Hreplay)
      as (Hsteps & Hall & _).
    destruct (render_frame_of _ _ _ _ _ _ Hfr0) as [Hof Hstep].
    exists res, c, b, fr0, evs. rewrite Hstart, Hplan. simpl.
    rewrite app_nil_r. eauto 20.
Qed.

Lemma run_visualize_outcome pl_file sid budget :
  visualize_outcome sid (run_prolog pl_file sid budget)
    (run_visualize run_prolog pl_file sid budget).1
    (run_visualize run_prolog pl_file sid budget).2.
Proof.
  destruct (visualize_outcome_runs run_prolog pl_file sid budget)
    as (r & evs & Hruns & Hout).
  unfold run_visualize. by rewrite Hruns.
Qed.
End frames.

(** The frames of a run, however it ends. *)
Lemma run_visualize_frames run_prolog pl_file sid budget :
  let out := (run_visualize run_prolog pl_file sid budget).2 in
  ∃ title,
    Forall (frame_of ("viz_" +:+ sid) title) (frames out)
    ∧ fr_step <$> frames out = seq 0 (length (frames out)).
Proof.
  intros out.
  destruct (visualize_outcome_frames _ _ _ _
              (run_visualize_outcome run_prolog pl_file sid budget))
    as [Hnone|(res & c & b & fr0 & evs & _ & _ & _ & _ & _ & _ & Hframes
               & Hof0 & Hstep0 & Hsteps & Hall)];
    fold out in Hnone || fold out in Hframes.
  - exists "". rewrite Hnone. by split.
  - exists (frame_title sid c b). rewrite Hframes. split; [by constructor|].
    by rewrite fmap_cons, length_cons, Hstep0, Hsteps.
Qed.

Lemma step_paths_NoDup out_dir n :
  NoDup (step_path out_dir <$> seq 0 n).
Proof.
  pose proof (step_path_inj out_dir) as Hinj.
  apply (NoDup_fmap_2 _), NoDup_seq.
Qed.

(** X16. In every run of [visualize], however it ends, the frames saved
    are numbered 0, 1, 2, ... without a gap, they all lie in the
    directory "viz_" followed by the scenario, they carry one title, and
    no two of them are saved as the same file. *)
Theorem visualize_frames_numbered run_prolog pl_file sid budget :
  let out := (run_visualize run_prolog pl_file sid budget).2 in
  fr_step <$> frames out = seq 0 (length (frames out))
  ∧ Forall (λ fr, fr_out_dir fr = "viz_" +:+ sid) (frames out)
  ∧ (∀ fr1 fr2, fr1 ∈ frames out → fr2 ∈ frames out →
       fr_title fr1 = fr_title fr2)
  ∧ NoDup (frame_path <$> frames out).
Proof.
  intros out.
  destruct (run_visualize_frames run_prolog pl_file sid budget)
    as (title & Hall & Hseq). fold out in Hall, Hseq.
  split; [done|]. split; [|split].
  - eapply Forall_impl; [exact Hall|]. by intros fr [? _].
  - rewrite Forall_forall in Hall. intros fr1 fr2 H1 H2.
    destruct (Hall _ H1) as (_ & -> & _).
    by destruct (Hall _ H2) as (_ & -> & _).
  - rewrite (frame_path_step_path _ _ _ Hall), Hseq.
    apply step_paths_NoDup.
Qed.

(** ** Runs that raise *)

Lemma format_goal_error goal_dict e :
  format_goal goal_dict = inl e → e = IndexError ∨ ∃ s, e = ValueError_int s.
Proof.
  unfold format_goal.
  generalize (dict_keys goal_dict). intros ks.
  destruct (mapM_result _ ks) as [e'|keyed] eqn:Hkeyed; simpl; [|done].
  intros [= <-]. revert e' Hkeyed.
  induction ks as [|k ks IH]; intros e; simpl; [done|].
  destruct (goal_sort_key k) as [e'|sk] eqn:Hk; simpl.
  - intros [= <-]. unfold goal_sort_key in Hk.
    destruct (split_colon k) as [|loc [|pos rest]];
      [injection Hk as <-; by left..|].
    destruct (py_int pos) as [e2|n] eqn:Hint; simpl in Hk; [|done].
    injection Hk as <-. right. apply py_int_error in Hint. eauto.
  - destruct (mapM_result _ ks) as [e'|keyed] eqn:Hrest; simpl; [|done].
    intros [= <-]. by apply IH.
Qed.

Lemma move_cost_error act e : move_cost act = inl e → ∃ k, e = KeyError k.
Proof.
  destruct act as [tag sl sp dl dp block]. rewrite move_cost_run.
  repeat case_match; intros [= <-]; eauto.
Qed.

Lemma slots_lookup_error slots loc pos e :
  slots_lookup slots loc pos = inl e → ∃ k, e = KeyError k.
Proof.
  unfold slots_lookup, getitem.
  destruct (dict_get slots loc) as [inner|]; simpl; [|intros [= <-]; eauto].
  destruct (dict_get inner pos); simpl; [done|]. intros [= <-]; eauto.
Qed.

Lemma apply_move_error slots act e slots' :
  apply_move slots act = (inl e, slots') → run_error e.
Proof.
  destruct act as [tag sl sp dl dp block]. rewrite apply_move_run.
  destruct (slots_lookup slots sl sp) as [e1|cur] eqn:Hsrc.
  { intros [= <- _]. by destruct (slots_lookup_error _ _ _ _ Hsrc) as [k ->]. }
  case_decide; [|by intros [= <- _]].
  destruct (slots_lookup slots dl dp) as [e1|dst] eqn:Hdst.
  { intros [= <- _]. by destruct (slots_lookup_error _ _ _ _ Hdst) as [k ->]. }
  case_decide; [done|]. by intros [= <- _].
Qed.

(** On the grid of a scenario the loop never fails while drawing: it
    fails for a cost or for a move. *)
Lemma replay_outcome_error title out_dir i plan slots rc r evs :
  replay_outcome title out_dir i plan slots rc r evs →
  grid slots → ∀ e, r = inl e → run_error e.
Proof.
  induction 1 as [i slots rc|i act plan slots rc e' Hcost
                  |i act plan slots rc c br e' slots' Hcost Hmove
                  |i act plan slots rc c br slots' e' Hcost Hmove Hfr
                  |i act plan slots rc c br slots' fr r evs
                     Hcost Hmove Hfr Hrest IH];
    intros Hgrid e.
  - done.
  - intros [= <-]. by destruct (move_cost_error _ _ Hcost) as [k ->].
  - intros [= <-]. by eapply apply_move_error.
  - destruct (grid_apply_move _ _ _ Hgrid Hmove) as (Hgrid' & Hsl & Hdl).
    destruct (render_grid slots' i title out_dir (Some act) Hgrid')
      as (fr & Hfr' & _); [by intros ? [= <-]|]. congruence.
  - apply IH. by destruct (grid_apply_move _ _ _ Hgrid Hmove).
Qed.

(** X17. Once the planner has answered, a run of [visualize] that raises
    raises one of: the [IndexError] or the [ValueError] of a goal key
    that does not read "loc:n", the [KeyError] of a missing field of the
    answer or of an unknown position or item of a move, the "Unknown
    scenario" error, or one of the two errors of an invalid move.  The
    drawing never fails in a run. *)
Theorem visualize_raises run_prolog pl_file sid budget res e :
  run_prolog pl_file sid budget = inr res →
  (run_visualize run_prolog pl_file sid budget).1 = inl e →
  run_error e
  ∧ e ≠ StopIteration ∧ (∀ x, e ≠ ValueError_not_in_list x).
Proof.
  intros Hres Hraise.
  assert (run_error e) as Herr; [|by destruct e].
  pose proof (run_visualize_outcome run_prolog pl_file sid budget) as Hout.
  rewrite Hres, Hraise in Hout.
  inversion Hout as [|? ? Hne Hbad|? Hgoal Hok|? name Hgoal Hok Hname
                     |? plan c b ? Hgoal Hok Hplan Hcost Hbudget Hstart
                     |? plan c b slots fr0 ? evs Hgoal Hok Hplan Hcost
                        Hbudget Hstart Hfr0 Hreplay|]; subst.
  - by destruct (format_goal_error _ _ Hbad) as [->|[s ->]].
  - done.
  - unfold start_slots, raise, ok in Hstart.
    repeat case_decide; by simplify_eq.
  - eapply replay_outcome_error; [exact Hreplay| |done].
    by eapply grid_start_slots.
Qed.

Lemma visualize_raises_witness :
  let res :=
    {| res_ok := Some true;
       res_plan := Some [mk_action "move" "a" 1 "a" 2 "a"];
       res_cost := Some 2;
       res_budget := Some 30;
       res_goal := None |} in
  run_error (ValueError_destination_not_empty "a" 2)
  ∧ ValueError_destination_not_empty "a" 2 ≠ StopIteration
  ∧ ∀ x, ValueError_destination_not_empty "a" 2 ≠ ValueError_not_in_list x.
Proof.
  intros res.
  apply (visualize_raises (canned_planner res) PROLOG_FILE "s1" None res);
    reflexivity.
Defined.

(** X18. A run saves a frame only for an answer that has a plan: if any
    frame is saved then the planner answered, with [ok] true and the
    fields plan, cost and budget, the goal could be printed and the
    scenario is one that [start_slots] knows. *)
Theorem visualize_saves_only_with_plan run_prolog pl_file sid budget :
  frames (run_visualize run_prolog pl_file sid budget).2 ≠ [] →
  ∃ res plan c b slots,
    run_prolog pl_file sid budget = inr res
    ∧ res_ok res = Some true
    ∧ res_plan res = Some plan
    ∧ res_cost res = Some c
    ∧ res_budget res = Some b
    ∧ goal_printable res
    ∧ start_slots sid = inr slots.
Proof.
  intros Hframes.
  pose proof (run_visualize_outcome run_prolog pl_file sid budget) as Hout.
  assert (∀ res, default false (res_ok res) = true → res_ok res = Some true)
    as Hok_true.
  { intros res. by destruct (res_ok res) as [[]|]. }
  remember (run_prolog pl_file sid budget) as answer eqn:Hanswer.
  remember (run_visualize run_prolog pl_file sid budget).1 as r eqn:Hr.
  remember (run_visualize run_prolog pl_file sid budget).2 as out eqn:Hevs.
  destruct Hout as [e|res e Hne Hbad|res Hgoal Hok|res name Hgoal Hok Hname
                    |res plan c b e Hgoal Hok Hplan Hcost Hbudget Hstart
                    |res plan c b slots fr0 e evs Hgoal Hok Hplan Hcost
                       Hbudget Hstart Hfr0 Hreplay
                    |res plan c b slots fr0 final total evs Hgoal Hok Hplan
                       Hcost Hbudget Hstart Hfr0 Hreplay];
    try (rewrite ?frames_app, ?frames_goal_lines in Hframes; done).
  - exists res, plan, c, b, slots. eauto 10.
  - exists res, plan, c, b, slots. eauto 10.
Qed.

Lemma visualize_saves_only_with_plan_witness :
  let res :=
    {| res_ok := Some true;
       res_plan := Some [];
       res_cost := Some 0;
       res_budget := Some 30;
       res_goal := None |} in
  ∃ res' plan c b slots,
    canned_planner res PROLOG_FILE "s2" None = inr res'
    ∧ res_ok res' = Some true
    ∧ res_plan res' = Some plan
    ∧ res_cost res' = Some c
    ∧ res_budget res' = Some b
    ∧ goal_printable res'
    ∧ start_slots "s2" = inr slots.
Proof.
  intros res.
  apply (visualize_saves_only_with_plan (canned_planner res)
           PROLOG_FILE "s2" None).
  discriminate.
Defined.

(** ** Runs with a step that fails *)

Lemma printed_totals_goal_lines res : printed_totals (goal_lines res) = [].
Proof.
  unfold goal_lines. case_decide; [|done].
  by destruct (format_goal _).
Qed.

Lemma printed_totals_app out1 out2 :
  printed_totals (out1 ++ out2) = printed_totals out1 ++ printed_totals out2.
Proof. apply omap_app. Qed.

Lemma step_costs_app out1 out2 :
  step_costs (out1 ++ out2) = step_costs out1 ++ step_costs out2.
Proof. apply omap_app. Qed.

Lemma step_lines_app out1 out2 :
  step_lines (out1 ++ out2) = step_lines out1 ++ step_lines out2.
Proof. apply omap_app. Qed.

(** The loop over the moves that pass and the rest of the plan. *)
Lemma replay_outcome_prefix title out_dir pre :
  ∀ i slots rc mid t rest r evs,
    grid slots →
    run_plan slots pre = inr (mid, t) →
    replay_outcome title out_dir i (pre ++ rest) slots rc r evs →
    ∃ evs1 evs2,
      evs = evs1 ++ evs2
      ∧ length (frames evs1) = length pre
      ∧ printed_totals evs1 = []
      ∧ replay_outcome title out_dir (i + length pre) rest mid (rc + t) r evs2.
Proof.
  induction pre as [|act pre IH]; intros i slots rc mid t rest r evs Hgrid.
  - rewrite run_plan_nil. intros [= <- <-] Hout.
    exists [], evs. rewrite Nat.add_0_r, Z.add_0_r. done.
  - rewrite run_plan_cons.
    destruct (move_cost act) as [e|[c br]] eqn:Hcost; [done|].
    destruct (apply_move slots act) as [[e|[]] slots'] eqn:Hmove; [done|].
    destruct (run_plan slots' pre) as [e|[mid' t']] eqn:Hrest; [done|].
    intros [= <- <-] Hout.
    destruct (grid_apply_move _ _ _ Hgrid Hmove) as (Hgrid' & Hsl & Hdl).
    rewrite <- app_comm_cons in Hout.
    inversion Hout as [|? ? ? ? ? ? Hcost'|? ? ? ? ? ? ? ? ? Hcost' Hmove'
                       |? ? ? ? ? ? ? ? ? Hcost' Hmove' Hfr
                       |? ? ? ? ? c' br' slots'' fr ? evs' Hcost' Hmove' Hfr
                          Hnext]; subst; try congruence.
    + rewrite Hmove in Hmove'. injection Hmove' as <-.
      destruct (render_grid slots' i title out_dir (Some act) Hgrid')
        as (fr & Hfr' & _); [by intros ? [= <-]|]. congruence.
    + rewrite Hmove in Hmove'. injection Hmove' as <-.
      rewrite Hcost in Hcost'. injection Hcost' as <- <-.
      destruct (IH _ _ _ _ _ _ _ _ Hgrid' Hrest Hnext)
        as (evs1 & evs2 & -> & Hlen & Htot & Hout').
      eexists (_ :: _ :: _ :: _ :: _ :: evs1), evs2.
      split; [done|]. split; [simpl; by rewrite Hlen|]. split; [done|].
      replace (i + length (act :: pre))%nat with (S i + length pre)%nat
        by (simpl; lia).
      by rewrite Z.add_assoc.
Qed.

(** X19. When the moves of a plan before some move pass and that move
    fails, for its cost or in [apply_move], the run raises the error of
    that move after the frames of step 0 and of the moves that passed,
    and prints no recomputed total.  When it is [apply_move] that fails,
    the last line of the run is the cost of the move that was refused:
    the cost is printed before the move is tried. *)
Theorem visualize_step_raises run_prolog pl_file sid budget res c b slots
    pre act post mid t e :
  run_prolog pl_file sid budget = inr res →
  res_ok res = Some true →
  res_plan res = Some (pre ++ act :: post) →
  res_cost res = Some c →
  res_budget res = Some b →
  goal_printable res →
  start_slots sid = inr slots →
  run_plan slots pre = inr (mid, t) →
  (move_cost act = inl e
   ∨ ∃ cb, move_cost act = inr cb ∧ (apply_move mid act).1 = inl e) →
  let run := run_visualize run_prolog pl_file sid budget in
  run.1 = inl e
  ∧ length (frames run.2) = S (length pre)
  ∧ printed_totals run.2 = []
  ∧ ∀ c br, move_cost act = inr (c, br) →
      last run.2 = Some (Printed (L_step_cost br c))
      ∧ last (step_lines run.2) = Some (S (length pre), act).
Proof.
  intros Hres Hok Hplan Hcost Hbudget Hgoal Hstart Hpre Hfail run.
  pose proof (run_visualize_outcome run_prolog pl_file sid budget) as Hout.
  fold run in Hout.
  pose proof (grid_start_slots _ _ Hstart) as Hgrid.
  destruct (format_goal_printable _ Hgoal) as [text Htext].
  rewrite Hres in Hout.
  remember (inr res) as answer eqn:Hanswer.
  remember run.1 as r eqn:Hr. remember run.2 as out eqn:Hevs.
  clear Hr Hevs.
  destruct Hout as [e'|res' e' Hne Hbad|res' Hgoal' Hok'
                    |res' name Hgoal' Hok' Hname
                    |res' plan c' b' e' Hgoal' Hok' Hplan' Hcost' Hbudget'
                       Hstart'
                    |res' plan c' b' slots' fr0 e' evs Hgoal' Hok' Hplan'
                       Hcost' Hbudget' Hstart' Hfr0 Hreplay
                    |res' plan c' b' slots' fr0 final total evs Hgoal' Hok'
                       Hplan' Hcost' Hbudget' Hstart' Hfr0 Hreplay];
    try done; injection Hanswer as ->.
  - congruence.
  - rewrite Hok in Hok'. done.
  - rewrite Hplan, Hcost, Hbudget in Hname.
    destruct Hname as [[? _]|[(_ & ? & _)|(_ & _ & ? & _)]]; done.
  - congruence.
  - rewrite Hplan in Hplan'. injection Hplan' as <-.
    rewrite Hstart in Hstart'. injection Hstart' as <-.
    destruct (replay_outcome_prefix _ _ _ _ _ _ _ _ _ _ _ Hgrid Hpre Hreplay)
      as (evs1 & evs2 & -> & Hlen & Htot & Hrest).
    assert (e' = e
            ∧ frames evs2 = [] ∧ printed_totals evs2 = []
            ∧ ∀ c br, move_cost act = inr (c, br) →
                evs2 = [ Printed (L_step (S (length pre)) act);
                         Printed (L_step_cost br c) ])
      as (-> & Hf2 & Ht2 & Hlast).
    { inversion Hrest as [|? ? ? ? ? ? Hc|? ? ? ? ? ? ? ? ? Hc Hm
                          |? ? ? ? ? ? ? ? ? Hc Hm Hfr
                          |? ? ? ? ? ? ? ? ? ? ? Hc Hm Hfr Hnext]; subst.
      - destruct Hfail as [Hf|[cb [Hf _]]]; [|congruence].
        rewrite Hc in Hf. injection Hf as ->.
        repeat split; try done. intros; congruence.
      - destruct Hfail as [Hf|[cb [_ Hf]]]; [congruence|].
        rewrite Hm in Hf. injection Hf as ->.
        repeat split; try done.
        intros c1 br1 Hc1. rewrite Hc in Hc1. by injection Hc1 as -> ->.
      - destruct Hfail as [Hf|[cb [_ Hf]]]; [congruence|].
        by rewrite Hm in Hf.
      - destruct Hfail as [Hf|[cb [_ Hf]]]; [congruence|].
        by rewrite Hm in Hf. }
    split; [done|]. split; [|split].
    + rewrite !frames_app, frames_goal_lines, Hf2. simpl.
      rewrite app_nil_r. by rewrite Hlen.
    + by rewrite !printed_totals_app, printed_totals_goal_lines, Htot, Ht2.
    + intros c1 br1 Hc1. rewrite (Hlast _ _ Hc1). split.
      * by rewrite !last_app.
      * by rewrite !step_lines_app, !last_app.
  - rewrite Hplan in Hplan'. injection Hplan' as <-.
    rewrite Hstart in Hstart'. injection Hstart' as <-.
    destruct (replay_outcome_prefix _ _ _ _ _ _ _ _ _ _ _ Hgrid Hpre Hreplay)
      as (evs1 & evs2 & -> & Hlen & Htot & Hrest).
    inversion Hrest as [|? ? ? ? ? ? Hc|? ? ? ? ? ? ? ? ? Hc Hm
                        |? ? ? ? ? ? ? ? ? Hc Hm Hfr
                        |? ? ? ? ? ? ? ? ? ? ? Hc Hm Hfr Hnext]; subst.
    destruct Hfail as [Hf|[cb [_ Hf]]]; [congruence|].
    by rewrite Hm in Hf.
Qed.

Lemma visualize_step_raises_witness :
  let res :=
    {| res_ok := Some true;
       res_plan := Some [ mk_action "move" "a" 2 "c" 1 "b";
                          mk_action "move" "a" 1 "c" 1 "a" ];
       res_cost := Some 13;
       res_budget := Some 30;
       res_goal := None |} in
  let run := run_visualize (canned_planner res) PROLOG_FILE "s1" None in
  run.1 = inl (ValueError_destination_not_empty "c" 1)
  ∧ length (frames run.2) = 2%nat
  ∧ printed_totals run.2 = []
  ∧ last run.2 = Some (Printed (L_step_cost (mk_breakdown 3 0 1) 3)).
Proof.
  intros res run.
  destruct (visualize_step_raises (canned_planner res) PROLOG_FILE "s1" None
              res 13 30
              [ ("a", [ (1, Some "a"); (2, Some "b"); (3, None) ]);
                ("b", [ (1, Some "c"); (2, None); (3, None) ]);
                ("c", [ (1, None); (2, None); (3, None) ]) ]
              [mk_action "move" "a" 2 "c" 1 "b"]
              (mk_action "move" "a" 1 "c" 1 "a") []
              [ ("a", [ (1, Some "a"); (2, None); (3, None) ]);
                ("b", [ (1, Some "c"); (2, None); (3, None) ]);
                ("c", [ (1, Some "b"); (2, None); (3, None) ]) ]
              10 (ValueError_destination_not_empty "c" 1))
    as (Hr & Hframes & Htotals & Hlast); try reflexivity.
  - constructor.
  - right. exists (3, mk_breakdown 3 0 1). split; reflexivity.
  - split; [exact Hr|]. split; [exact Hframes|]. split; [exact Htotals|].
    apply (Hlast 3 (mk_breakdown 3 0 1)). reflexivity.
Defined.

(** ** Runs that end normally *)

(** What the loop prints when it returns: every move with its number and
    its cost, the costs adding up to what it returns. *)
Lemma replay_outcome_returns title out_dir i plan slots rc r evs :
  replay_outcome title out_dir i plan slots rc r evs →
  ∀ final total, r = inr (final, total) →
    step_lines evs = zip (seq i (length plan)) plan
    ∧ length (step_costs evs) = length plan
    ∧ total = rc + foldr Z.add 0 (step_costs evs)
    ∧ mapM_result move_cost plan
      = inr (zip (step_costs evs)
                 (omap (λ e, match e with
                             | Printed (L_step_cost br _) => Some br
                             | _ => None
                             end) evs))
    ∧ length (frames evs) = length plan
    ∧ printed_totals evs = [].
Proof.
  induction 1 as [i slots rc| | | |i act plan slots rc c br slots' fr r evs
                                   Hcost Hmove Hfr Hrest IH];
    intros final total Hr; try done.
  - injection Hr as <- <-. simpl. repeat split; try done. lia.
  - destruct (IH _ _ Hr) as (Hlines & Hlen & Htotal & Hcosts & Hframes & Htot).
    change (step_lines (_ ++ evs)) with ((i, act) :: step_lines evs).
    change (step_costs (_ ++ evs)) with (c :: step_costs evs).
    change (frames (_ ++ evs)) with (fr :: frames evs).
    change (printed_totals (_ ++ evs)) with (printed_totals evs).
    rewrite Hlines, !length_cons, Hlen, Hframes.
    split; [done|]. split; [done|]. split; [simpl; lia|].
    split; [|done]. simpl. by rewrite Hcost, Hcosts.
Qed.

(** X20. A run on an answer with a plan that ends normally has printed
    every move of the plan in order, numbered from 1, each with its
    cost, then one recomputed total, which is the sum of the step costs
    that it printed; it has saved one frame per move after the frame of
    step 0. *)
Theorem visualize_log_adds_up run_prolog pl_file sid budget res plan out :
  run_prolog pl_file sid budget = inr res →
  res_ok res = Some true →
  res_plan res = Some plan →
  run_visualize run_prolog pl_file sid budget = (inr tt, out) →
  step_lines out = zip (seq 1 (length plan)) plan
  ∧ length (step_costs out) = length plan
  ∧ printed_totals out = [foldr Z.add 0 (step_costs out)]
  ∧ length (frames out) = S (length plan).
Proof.
  intros Hres Hok Hplan Hrun.
  pose proof (run_visualize_outcome run_prolog pl_file sid budget) as Hout.
  rewrite Hres, Hrun in Hout. simpl in Hout.
  remember (inr res) as answer eqn:Hanswer.
  remember (inr tt) as r eqn:Hr.
  assert (∀ res', step_lines (goal_lines res') = []
                  ∧ step_costs (goal_lines res') = []
                  ∧ printed_totals (goal_lines res') = []
                  ∧ frames (goal_lines res') = [])
    as Hhead.
  { intros res'. unfold goal_lines. case_decide; [|done].
    by destruct (format_goal _). }
  destruct Hout as [e'|res' e' Hne Hbad|res' Hgoal' Hok'
                    |res' name Hgoal' Hok' Hname
                    |res' plan' c' b' e' Hgoal' Hok' Hplan' Hcost' Hbudget'
                       Hstart'
                    |res' plan' c' b' slots' fr0 e' evs Hgoal' Hok' Hplan'
                       Hcost' Hbudget' Hstart' Hfr0 Hreplay
                    |res' plan' c' b' slots' fr0 final total evs Hgoal' Hok'
                       Hplan' Hcost' Hbudget' Hstart' Hfr0 Hreplay];
    try done; injection Hanswer as ->.
  - rewrite Hok in Hok'. done.
  - rewrite Hplan in Hplan'. injection Hplan' as <-.
    destruct (replay_outcome_returns _ _ _ _ _ _ _ _ Hreplay _ _ eq_refl)
      as (Hlines & Hlen & Htotal & _ & Hframes & Htot).
    destruct (Hhead res) as (Hh1 & Hh2 & Hh3 & Hh4).
    rewrite !step_lines_app, !step_costs_app, !printed_totals_app,
      !frames_app, Hh1, Hh2, Hh3, Hh4, Htot. simpl.
    rewrite !app_nil_r, Hlines, Hlen, Hframes, Htotal.
    by repeat split.
Qed.

Lemma visualize_log_adds_up_witness :
  let res :=
    {| res_ok := Some true;
       res_plan := Some [ mk_action "move" "a" 2 "c" 1 "b";
                          mk_action "move" "b" 1 "c" 2 "c" ];
       res_cost := Some 19;
       res_budget := Some 30;
       res_goal := Some [("c:1", "b"); ("c:2", "c")] |} in
  let out := (run_visualize (canned_planner res) PROLOG_FILE "s1" None).2 in
  step_lines out = [ (1%nat, mk_action "move" "a" 2 "c" 1 "b");
                     (2%nat, mk_action "move" "b" 1 "c" 2 "c") ]
  ∧ printed_totals out = [foldr Z.add 0 (step_costs out)]
  ∧ length (frames out) = 3%nat.
Proof.
  intros res out.
  destruct (visualize_log_adds_up (canned_planner res) PROLOG_FILE "s1" None
              res
              [ mk_action "move" "a" 2 "c" 1 "b";
                mk_action "move" "b" 1 "c" 2 "c" ] out)
    as (Hlines & _ & Htotal & Hframes); try reflexivity.
  split; [exact Hlines|]. split; [exact Htotal | exact Hframes].
Defined.

(** ** The four scenarios *)

Lemma for_each_sequence {A} (f : A → IO unit) (l : list A) :
  (∀ x, ∃ r evs, runs (f x) r evs) →
  ∀ out,
    for_each f l out
    = ((sequence_runs ((λ x, f x []) <$> l)).1,
       out ++ (sequence_runs ((λ x, f x []) <$> l)).2).
Proof.
  intros Hruns. induction l as [|x l IH]; intros out.
  - simpl. unfold mret. by rewrite app_nil_r.
  - destruct (Hruns x) as (r & evs & Hx).
    cbn [for_each fmap list_fmap sequence_runs]. unfold mbind.
    rewrite (Hx out), (Hx []). simpl.
    destruct r as [e|[]]; [done|].
    rewrite IH.
    destruct (sequence_runs _) as [r' out']. simpl. by rewrite (assoc app).
Qed.

Lemma main_sequence_eq run_prolog :
  main run_prolog []
  = sequence_runs
      ((λ sid, run_visualize run_prolog PROLOG_FILE sid None)
         <$> ["s1"; "s2"; "s3"; "s4"]).
Proof.
  unfold main. rewrite for_each_sequence.
  - by destruct (sequence_runs _).
  - intros sid.
    destruct (visualize_outcome_runs run_prolog PROLOG_FILE sid None)
      as (r & evs & Hruns & _). eauto.
Qed.

(** X21. [main] runs the four scenarios one after the other, each as it
    would run on its own, and stops at the first run that raises: a
    later scenario is not started. *)
Theorem main_sequence run_prolog :
  main run_prolog []
  = sequence_runs
      ((λ sid, run_visualize run_prolog PROLOG_FILE sid None)
         <$> ["s1"; "s2"; "s3"; "s4"]).
Proof.
  unfold main. rewrite for_each_sequence.
  - by destruct (sequence_runs _).
  - intros sid.
    destruct (visualize_outcome_runs run_prolog PROLOG_FILE sid None)
      as (r & evs & Hruns & _). eauto.
Qed.

Lemma sequence_runs_paths run_prolog sids :
  NoDup sids →
  let out :=
    (sequence_runs
       ((λ sid, run_visualize run_prolog PROLOG_FILE sid None) <$> sids)).2 in
  NoDup (frame_path <$> frames out)
  ∧ Forall (λ fr, ∃ sid, sid ∈ sids ∧ fr_out_dir fr = "viz_" +:+ sid)
           (frames out).
Proof.
  induction 1 as [|sid sids Hnotin Hnodup IH]; [by split; constructor|].
  destruct IH as [IH1 IH2]. cbn [fmap list_fmap sequence_runs] in *.
  destruct (run_visualize_frames run_prolog PROLOG_FILE sid None)
    as (title & Hall & Hseq).
  assert (NoDup (frame_path
                   <$> frames (run_visualize run_prolog PROLOG_FILE sid None).2)
          ∧ Forall (λ fr, fr_out_dir fr = "viz_" +:+ sid)
                   (frames (run_visualize run_prolog PROLOG_FILE sid None).2))
    as [Hpaths Hdir].
  { split.
    - rewrite (frame_path_step_path _ _ _ Hall), Hseq. apply step_paths_NoDup.
    - eapply Forall_impl; [exact Hall|]. by intros fr [? _]. }
  destruct (run_visualize run_prolog PROLOG_FILE sid None) as [[e|[]] evs];
    simpl in *.
  - split; [done|]. eapply Forall_impl; [exact Hdir|].
    intros fr Hfr. exists sid. split; [by left|done].
  - destruct (sequence_runs _) as [r' out']. simpl in *.
    rewrite frames_app, fmap_app. split.
    + apply NoDup_app. split; [done|]. split; [|done].
      intros p (fr1 & -> & Hfr1)%list_elem_of_fmap
               (fr2 & Heq & Hfr2)%list_elem_of_fmap.
      rewrite Forall_forall in Hdir, IH2.
      destruct (IH2 _ Hfr2) as (sid' & Hsid' & Hdir2).
      pose proof (Hdir _ Hfr1) as Hdir1.
      injection Heq as Heq _. rewrite Hdir1, Hdir2 in Heq.
      apply (inj (String.app "viz_")) in Heq. by subst.
    + apply Forall_app. split.
      * eapply Forall_impl; [exact Hdir|].
        intros fr Hfr. exists sid. split; [by left|done].
      * eapply Forall_impl; [exact IH2|].
        intros fr (sid' & Hin & Hfr). exists sid'. split; [by right|done].
Qed.

(** X22. In a run of [main], however the planner answers, no two frames
    are saved as the same file, and every frame lies in the directory of
    one of the four scenarios: the frames of one scenario never
    overwrite those of another. *)
Theorem main_frames_distinct run_prolog :
  let out := (main run_prolog []).2 in
  NoDup (frame_path <$> frames out)
  ∧ Forall (λ fr, fr_out_dir fr ∈ ["viz_s1"; "viz_s2"; "viz_s3"; "viz_s4"])
           (frames out).
Proof.
  intros out. unfold out. rewrite main_sequence_eq.
  destruct (sequence_runs_paths run_prolog ["s1"; "s2"; "s3"; "s4"])
    as [Hpaths Hdirs].
  { apply NoDup_ListNoDup. repeat constructor; simpl; intuition discriminate. }
  split; [done|]. eapply Forall_impl; [exact Hdirs|].
  intros fr (sid & Hsid & ->).
  rewrite !elem_of_cons, elem_of_nil in Hsid.
  destruct Hsid as [->|[->|[->|[->|[]]]]];
    rewrite !elem_of_cons; auto.
Qed.

(** * The runs without a move *)

Lemma no_plan_line_not_in_head sid res :
  Printed (L_no_plan_found res) ∉ visualize_head sid ++ goal_lines res.
Proof.
  unfold visualize_head, goal_lines. intros Hin.
  apply elem_of_app in Hin as [Hin|Hin].
  - rewrite !elem_of_cons, elem_of_nil in Hin. intuition discriminate.
  - case_decide; [|by apply elem_of_nil in Hin].
    destruct (format_goal _);
      rewrite !elem_of_cons, elem_of_nil in Hin; intuition discriminate.
Qed.

(** The frame of step 0 on a scenario grid: what it shows. *)
Lemma render_step_0 slots title out_dir fr :
  grid slots →
  render slots 0 title out_dir None = inr fr →
  fr_step fr = 0%nat
  ∧ fr_out_dir fr = out_dir
  ∧ fr_file fr = "step_00.png"
  ∧ fr_title fr = title
  ∧ cell_texts fr = occupied_cells slots
  ∧ cells fr = [ (0, 0); (0, 1); (0, 2); (1, 0); (1, 1); (1, 2);
                 (2, 0); (2, 1); (2, 2) ]%nat
  ∧ arrows fr = [].
Proof.
  intros Hgrid.
  destruct (grid_explicit _ Hgrid)
    as (a1 & a2 & a3 & b1 & b2 & b3 & c1 & c2 & c3 & ->).
  rewrite (render_grid_explicit _ _ _ _ _ _ _ _ _ _ _ _ None []) by done.
  intros Hfr%(inj inr). subst fr. do 4 (split; [done|]).
  unfold cell_texts, cells, arrows. cbn [fr_shapes concat].
  rewrite !omap_app, !cell_texts_cell_shapes, !cells_cell_shapes,
    !arrows_cell_shapes.
  split; [|by split].
  unfold occupied_cells, slots_lookup, getitem. simpl.
  by rewrite !app_nil_r.
Qed.

(** C8. For an answer with [ok] true and an empty plan that has a cost
    and a budget and a goal whose keys all read "loc:n", on a scenario
    that [start_slots] knows, [visualize] returns having saved one frame,
    the frame of step 0, which shows the initial state of the scenario
    and no move, and prints 0 as the recomputed total, whatever cost the
    planner reported.  Without one of these conditions the run raises
    before anything is drawn: it saves no frame and prints no total. *)
Theorem visualize_empty_plan run_prolog pl_file sid budget res :
  run_prolog pl_file sid budget = inr res →
  res_ok res = Some true →
  res_plan res = Some [] →
  let run := run_visualize run_prolog pl_file sid budget in
  (∀ c b slots,
     res_cost res = Some c →
     res_budget res = Some b →
     goal_printable res →
     start_slots sid = inr slots →
     ∃ fr0,
       run.1 = inr tt
       ∧ frames run.2 = [fr0]
       ∧ fr_step fr0 = 0%nat
       ∧ render slots 0
                (sid +:+ " (cost=" +:+ pretty c +:+ ", budget=" +:+ pretty b
                     +:+ ")")
                ("viz_" +:+ sid) None = inr fr0
       ∧ fr_out_dir fr0 = "viz_" +:+ sid
       ∧ fr_file fr0 = "step_00.png"
       ∧ cell_texts fr0 = occupied_cells slots
       ∧ cells fr0 = [ (0, 0); (0, 1); (0, 2); (1, 0); (1, 1); (1, 2);
                       (2, 0); (2, 1); (2, 2) ]%nat
       ∧ arrows fr0 = []
       ∧ final_summary run.2
         = [L_total_cost_python 0; L_images_saved ("viz_" +:+ sid)])
  ∧ (res_cost res = None ∨ res_budget res = None ∨ ¬ goal_printable res
     ∨ (∀ slots, start_slots sid ≠ inr slots) →
     (∃ e, run.1 = inl e)
     ∧ frames run.2 = []
     ∧ printed_totals run.2 = []).
Proof.
  intros Hres Hok Hplan run.
  pose proof (run_visualize_outcome run_prolog pl_file sid budget) as Hout.
  fold run in Hout. rewrite Hres in Hout.
  destruct run as [r evs]. simpl in *.
  remember (inr res) as answer eqn:Hanswer.
  destruct Hout as [e|res' e Hne Hbad|res' Hgoal Hok'|res' name Hgoal Hok' Hname
                    |res' plan c' b' e Hgoal Hok' Hplan' Hcost' Hbudget' Hstart'
                    |res' plan c' b' slots' fr0 e evs Hgoal Hok' Hplan' Hcost'
                       Hbudget' Hstart' Hfr0 Hreplay
                    |res' plan c' b' slots' fr0 final total evs Hgoal Hok'
                       Hplan' Hcost' Hbudget' Hstart' Hfr0 Hreplay];
    simplify_eq.
  - (* the goal cannot be printed *)
    split.
    + intros c b slots _ _ Hgoal _.
      destruct (format_goal_printable _ Hgoal) as [text Htext]. congruence.
    + intros _. split; [by eexists|].
      by rewrite frames_app, frames_goal_lines, printed_totals_app,
        printed_totals_goal_lines.
  - by rewrite Hok in Hok'.
  - (* a field is missing *)
    split.
    + intros c b slots Hcost Hbudget _ _.
      destruct Hname as [[? _]|[(_ & ? & _)|(_ & _ & ? & _)]]; congruence.
    + intros _. split; [by eexists|].
      by rewrite frames_app, frames_goal_lines, printed_totals_app,
        printed_totals_goal_lines.
  - (* the scenario is unknown *)
    split.
    + intros c b slots _ _ _ Hstart. congruence.
    + intros _. split; [by eexists|].
      rewrite !frames_app, frames_goal_lines, !printed_totals_app,
        printed_totals_goal_lines. done.
  - (* an empty plan passes *)
    inversion Hreplay.
  - split.
    + intros c b slots Hcost Hbudget _ Hstart.
      rewrite Hcost' in Hcost. rewrite Hbudget' in Hbudget.
      rewrite Hstart' in Hstart.
      injection Hcost as <-. injection Hbudget as <-. injection Hstart as <-.
      assert (evs = [] ∧ total = 0) as [-> ->] by (by inversion Hreplay).
      pose proof (grid_start_slots _ _ Hstart') as Hgrid.
      destruct (render_step_0 _ _ _ _ Hgrid Hfr0)
        as (Hstep & Hdir & Hfile & _ & Htexts & Hcells & Harrows).
      exists fr0. split; [done|]. split.
      { by rewrite !frames_app, frames_goal_lines. }
      do 7 (split; [done|]).
      rewrite <- (final_summary_after_frame
                    ((visualize_head sid ++ goal_lines res)
                       ++ [ Printed (L_budget b');
                            Printed (L_plan_steps 0);
                            Printed (L_total_cost_prolog c');
                            Printed L_initial_state;
                            Printed (L_formatted (format_state slots')) ])
                    fr0 (L_total_cost_python 0)
                    (L_images_saved ("viz_" +:+ sid))).
      f_equal. by rewrite <- !(assoc app).
    + intros [Hcost|[Hbudget|[Hbad|Hstart]]]; [congruence..|done|].
      by destruct (Hstart slots').
Qed.

Lemma visualize_empty_plan_witness :
  let res :=
    {| res_ok := Some true;
       res_plan := Some [];
       res_cost := Some 42;
       res_budget := Some 30;
       res_goal := Some [("c:2", "b"); ("a:1", "empty")] |} in
  let run :=
    run_visualize (canned_planner res) "planner_astar_slots.pl" "s3" None in
  ∃ fr0,
    run.1 = inr tt
    ∧ frames run.2 = [fr0]
    ∧ fr_file fr0 = "step_00.png"
    ∧ cell_texts fr0 = [ (0, 0, "a"); (0, 1, "b"); (0, 2, "c") ]%nat
    ∧ arrows fr0 = []
    ∧ final_summary run.2 = [L_total_cost_python 0; L_images_saved "viz_s3"].
Proof.
  intros res run.
  destruct (visualize_empty_plan
              (canned_planner res) "planner_astar_slots.pl" "s3" None res
              eq_refl eq_refl eq_refl) as [Hreturns _].
  destruct (Hreturns 42 30
              [ ("a", [ (1, Some "a"); (2, Some "b"); (3, Some "c") ]);
                ("b", [ (1, None); (2, None); (3, None) ]);
                ("c", [ (1, None); (2, None); (3, None) ]) ])
    as (fr0 & Hrun & Hframes & _ & _ & _ & Hfile & Htexts & _ & Harrows
        & Hsummary).
  - reflexivity.
  - reflexivity.
  - repeat constructor; [by exists ("c", 2) | by exists ("a", 1)].
  - reflexivity.
  - exists fr0. repeat split; assumption.
Defined.

(** C8, as the claim has it, fails: an answer with [ok] true and an empty
    plan need not have a budget, and the run then raises [KeyError] for
    the field before anything is drawn; it saves no frame and prints no
    recomputed total. *)
Lemma visualize_empty_plan_counterexample :
  let res :=
    {| res_ok := Some true;
       res_plan := Some [];
       res_cost := Some 42;
       res_budget := None;
       res_goal := None |} in
  let run :=
    run_visualize (canned_planner res) "planner_astar_slots.pl" "s1" None in
  run.1 = inl (KeyError (KStr "budget"))
  ∧ frames run.2 = []
  ∧ printed_totals run.2 = [].
Proof. by repeat split. Qed.

(** C9. For an answer with [ok] false [visualize] saves no frame.  When
    the answer has no goal, or a goal whose keys all read "loc:n", the
    run prints that no plan was found, as the last thing it does, and
    returns without an error.  The goal is printed before [ok] is looked
    at: when one of its keys does not read so, the run raises the
    [IndexError] or the [ValueError] of that key and does not print that
    no plan was found. *)
Theorem visualize_no_plan run_prolog pl_file sid budget res :
  run_prolog pl_file sid budget = inr res →
  res_ok res = Some false →
  let run := run_visualize run_prolog pl_file sid budget in
  frames run.2 = []
  ∧ (goal_printable res →
     run.1 = inr tt ∧ last run.2 = Some (Printed (L_no_plan_found res)))
  ∧ (¬ goal_printable res →
     (∃ e, run.1 = inl e ∧ (e = IndexError ∨ ∃ s, e = ValueError_int s))
     ∧ Printed (L_no_plan_found res) ∉ run.2).
Proof.
  intros Hres Hok run.
  pose proof (run_visualize_outcome run_prolog pl_file sid budget) as Hout.
  fold run in Hout. rewrite Hres in Hout.
  destruct run as [r evs]. simpl in *.
  remember (inr res) as answer eqn:Hanswer.
  destruct Hout as [e|res' e Hne Hbad|res' Hgoal Hok'|res' name Hgoal Hok' Hname
                    |res' plan c' b' e Hgoal Hok' Hplan' Hcost' Hbudget' Hstart'
                    |res' plan c' b' slots' fr0 e evs Hgoal Hok' Hplan' Hcost'
                       Hbudget' Hstart' Hfr0 Hreplay
                    |res' plan c' b' slots' fr0 final total evs Hgoal Hok'
                       Hplan' Hcost' Hbudget' Hstart' Hfr0 Hreplay];
    simplify_eq; try (by rewrite Hok in Hok').
  - split; [by rewrite frames_app, frames_goal_lines|]. split.
    + intros Hgoal.
      destruct (format_goal_printable _ Hgoal) as [text Htext]. congruence.
    + intros _. split; [|apply no_plan_line_not_in_head].
      exists e. split; [done|]. by eapply format_goal_error.
  - split; [by rewrite !frames_app, frames_goal_lines|]. split; [|done].
    intros _. split; [done|].
    by rewrite (assoc app), last_snoc.
Qed.

Lemma visualize_no_plan_witness :
  let res :=
    {| res_ok := Some false;
       res_plan := None;
       res_cost := None;
       res_budget := Some 5;
       res_goal := Some [("b:3", "a")] |} in
  let run :=
    run_visualize (canned_planner res) "planner_astar_slots.pl" "s2"
                  (Some 5) in
  frames run.2 = []
  ∧ run.1 = inr tt
  ∧ last run.2 = Some (Printed (L_no_plan_found res)).
Proof.
  intros res run.
  destruct (visualize_no_plan (canned_planner res)
              "planner_astar_slots.pl" "s2" (Some 5) res eq_refl eq_refl)
    as (Hframes & Hreturns & _).
  split; [exact Hframes|]. apply Hreturns.
  repeat constructor. by exists ("b", 3).
Defined.

(** C9, as the claim has it, fails: with [ok] false and a goal that has
    the key "zz", the run raises [IndexError] while it prints the goal
    and never prints that no plan was found. *)
Lemma visualize_no_plan_counterexample :
  let res :=
    {| res_ok := Some false;
       res_plan := None;
       res_cost := None;
       res_budget := None;
       res_goal := Some [("a:1", "b"); ("zz", "c")] |} in
  let run :=
    run_visualize (canned_planner res) "planner_astar_slots.pl" "s1" None in
  run
  = (inl IndexError,
     [ Printed (L_scenario "s1"); Printed L_block_weights;
       Printed (L_weight "a" 1); Printed (L_weight "b" 2);
       Printed (L_weight "c" 3); Printed L_goal_state ])
  ∧ Printed (L_no_plan_found res) ∉ run.2.
Proof.
  split; [reflexivity|]. simpl.
  rewrite !elem_of_cons, elem_of_nil. intuition discriminate.
Qed.
